(** * Flights service: the seat-reservation saga

    A shallow embedding of the four transactional units of
    [apps/flights-svc/src/index.ts]:

    - [createReservation]   (POST   /flights/:id/reservations)
    - [confirmReservation]  (PATCH  /flights/reservations/:reservationId)
    - [cancelReservation]   (DELETE /flights/reservations/:reservationId)
    - [reservationCleanupTick], the callback that
      [startReservationCleanupJob] hands to [setInterval].

    The two MySQL tables the handlers touch are finite maps keyed by the
    row id; every handler is a function from the database before the
    request to the response and the database after it.  Each SQL statement
    is one primitive of a small transaction monad, a thrown [Error] aborts
    the body and [transact] restores the database the transaction started
    from (the handlers' [conn.rollback()]).

    Numbers are unbounded integers: seat counts and millisecond timestamps
    are far from the range where a JavaScript number or an SQL integer
    column would lose precision. *)

From stdpp Require Import gmap strings list fin_maps.

Local Open Scope string_scope.
Local Open Scope Z_scope.

(** ** Request values *)

(** What [express.json()] can put into a field of [req.body]; [JsUndefined]
    is a field that is absent.  Objects and arrays are left out: they are
    truthy, like a non-empty string. *)
Inductive JsVal : Type :=
  | JsUndefined
  | JsNull
  | JsBool (b : bool)
  | JsNum (z : Z)
  | JsStr (s : string).

(** JavaScript truthiness, the test behind [!bookingId]. *)
Definition truthy (v : JsVal) : bool :=
  match v with
  | JsUndefined | JsNull => false
  | JsBool b => b
  | JsNum z => negb (z =? 0)
  | JsStr s => negb (String.eqb s "")
  end.

(** ** Tables *)

Inductive Status : Type := pending | confirmed | cancelled | expired.

#[global] Instance Status_eq_dec : EqDecision Status.
Proof. solve_decision. Defined.

(** A row of [flight_reservations]; the key [id] is the key of the map.
    [expires_at = None] is SQL [NULL]. *)
Record Reservation : Type := mkReservation {
  flight_id  : string;
  booking_id : JsVal;
  seats      : Z;
  status     : Status;
  expires_at : option Z
}.

(** The database: of a [flights] row only [available_seats] matters here. *)
Record Db : Type := mkDb {
  flights             : gmap string Z;
  flight_reservations : gmap string Reservation
}.

Definition with_flights (fl : gmap string Z) (db : Db) : Db :=
  mkDb fl (flight_reservations db).

Definition with_reservations (rs : gmap string Reservation) (db : Db) : Db :=
  mkDb (flights db) rs.

Definition set_status (s : Status) (r : Reservation) : Reservation :=
  mkReservation (flight_id r) (booking_id r) (seats r) s (expires_at r).

Definition set_status_clear_expiry (s : Status) (r : Reservation) : Reservation :=
  mkReservation (flight_id r) (booking_id r) (seats r) s None.

(** ** Transactions *)

(** A transaction body reads and writes the database and may throw; the
    thrown value is the [message] of the [Error]. *)
Definition Tx (A : Type) : Type := Db → string + (A * Db).

#[global] Instance Tx_ret : MRet Tx := λ A (a : A) db, inr (a, db).

#[global] Instance Tx_bind : MBind Tx := λ A B (k : A → Tx B) (m : Tx A) db,
  match m db with
  | inl msg => inl msg
  | inr (a, db') => k a db'
  end.

Definition throw {A : Type} (msg : string) : Tx A := λ _, inl msg.

(** [beginTransaction] ... [commit], with [rollback] in the [catch]. *)
Definition transact {A : Type} (body : Tx A) (db : Db) : (string + A) * Db :=
  match body db with
  | inl msg => (inl msg, db)
  | inr (a, db') => (inr a, db')
  end.

(** *** The SQL statements *)

(** [SELECT available_seats FROM flights WHERE id = ? FOR UPDATE], row 0. *)
Definition select_flight_for_update (flightId : string) : Tx (option Z) :=
  λ db, inr (flights db !! flightId, db).

(** [UPDATE flights SET available_seats = available_seats - ? WHERE id = ?] *)
Definition decrement_available_seats (n : Z) (flightId : string) : Tx unit :=
  λ db, inr (tt, with_flights (alter (λ a, a - n) flightId (flights db)) db).

(** [UPDATE flights SET available_seats = available_seats + ? WHERE id = ?] *)
Definition increment_available_seats (n : Z) (flightId : string) : Tx unit :=
  λ db, inr (tt, with_flights (alter (λ a, a + n) flightId (flights db)) db).

(** Modelled from the spec: the schema of [flight_reservations] is not part
    of the sources; the persisted layout has a primary key on
    [Reservation.id], so an [INSERT] of a key that is present fails. *)
Definition insert_reservation (reservationId : string) (r : Reservation) : Tx unit :=
  λ db, match flight_reservations db !! reservationId with
        | Some _ => inl "Duplicate entry for key PRIMARY"
        | None => inr (tt, with_reservations (<[reservationId := r]> (flight_reservations db)) db)
        end.

(** [SELECT * FROM flight_reservations WHERE id = ? AND status = 'pending'
    FOR UPDATE], row 0. *)
Definition lookup_pending (reservationId : string) (db : Db) : option Reservation :=
  match flight_reservations db !! reservationId with
  | Some r => if decide (status r = pending) then Some r else None
  | None => None
  end.

Definition select_pending_for_update (reservationId : string) : Tx (option Reservation) :=
  λ db, inr (lookup_pending reservationId db, db).

(** [UPDATE flight_reservations SET status = ? WHERE id = ?] *)
Definition update_status (s : Status) (reservationId : string) : Tx unit :=
  λ db, inr (tt, with_reservations (alter (set_status s) reservationId (flight_reservations db)) db).

(** [UPDATE flight_reservations SET status = ?, expires_at = NULL WHERE id = ?] *)
Definition update_status_clear_expiry (s : Status) (reservationId : string) : Tx unit :=
  λ db, inr (tt, with_reservations
                   (alter (set_status_clear_expiry s) reservationId (flight_reservations db)) db).

(** The projection [id, flight_id, seats] the cleanup job selects. *)
Record ExpiredRow : Type := mkExpiredRow {
  row_id        : string;
  row_flight_id : string;
  row_seats     : Z
}.

(** [status = 'pending' AND expires_at < NOW()]; a [NULL] expiry compares
    to [NULL], which is not true. *)
Definition is_stale (now : Z) (r : Reservation) : bool :=
  match status r, expires_at r with
  | pending, Some e => e <? now
  | _, _ => false
  end.

Definition project_row (kv : string * Reservation) : ExpiredRow :=
  mkExpiredRow kv.1 (flight_id kv.2) (seats kv.2).

(** The rows of the ledger that match the [WHERE] clause at [now]. *)
Definition stale_rows (now : Z) (db : Db) : list (string * Reservation) :=
  map_to_list (filter (λ kv, is_stale now kv.2 = true) (flight_reservations db)).

(** [SELECT id, flight_id, seats FROM flight_reservations
     WHERE status = 'pending' AND expires_at < NOW()] *)
Definition select_expired (now : Z) : Tx (list ExpiredRow) :=
  λ db, inr (project_row <$> stale_rows now db, db).

(** [for (const res of rows) { await body(res) }] *)
Fixpoint for_of {A : Type} (rows : list A) (body : A → Tx unit) : Tx unit :=
  match rows with
  | [] => mret tt
  | res :: rest => body res ≫= λ _, for_of rest body
  end.

(** ** Responses *)

Inductive Payload : Type :=
  | ReservationId (reservationId : string)
  | StatusIs (s : Status)
  | Message (m : string).

Inductive Response : Type :=
  | Success (http : Z) (data : Payload)
  | Failure (http : Z) (code message : string).

Definition is_success (r : Response) : bool :=
  match r with Success _ _ => true | Failure _ _ _ => false end.

(** The hold window, [15 * 60 * 1000] milliseconds. *)
Definition HOLD_WINDOW_MS : Z := 15 * 60 * 1000.

(** ** The handlers *)

(** [seats_in = None] is a body without [seats]: the destructuring
    default [seats = 1] applies; a [seats] that is present is taken to be
    an integer.  [uuid] is the value of [uuidv4()] and [now] the value of
    [Date.now()] in this request. *)
Definition createReservation (flightId : string) (bookingId : JsVal)
    (seats_in : option Z) (uuid : string) (now : Z) (db : Db) : Response * Db :=
  let seats := default 1 seats_in in
  if negb (truthy bookingId) then
    (Failure 400 "BAD_REQUEST" "bookingId is required", db)
  else
    match transact (
      flight ← select_flight_for_update flightId;
      match flight with
      | None => throw "Flight not found"
      | Some available_seats =>
          if available_seats <? seats then throw "Not enough available seats"
          else
            decrement_available_seats seats flightId ≫= λ _,
            let reservationId := uuid in
            let expiresAt := now + HOLD_WINDOW_MS in
            insert_reservation reservationId
              (mkReservation flightId bookingId seats pending (Some expiresAt)) ≫= λ _,
            mret reservationId
      end) db
    with
    | (inr reservationId, db') => (Success 201 (ReservationId reservationId), db')
    | (inl message, db') => (Failure 500 "RESERVATION_FAILED" message, db')
    end.

Definition confirmReservation (reservationId : string) (db : Db) : Response * Db :=
  match transact (
    reservation ← select_pending_for_update reservationId;
    match reservation with
    | None => throw "Pending reservation not found or already processed"
    | Some _ => update_status_clear_expiry confirmed reservationId
    end) db
  with
  | (inr _, db') => (Success 200 (StatusIs confirmed), db')
  | (inl message, db') => (Failure 500 "CONFIRMATION_FAILED" message, db')
  end.

(** The early [return] after [commit] on a missing row is the [inl] of
    the body's result; a thrown error is the [inl] of [transact]. *)
Definition cancelReservation (reservationId : string) (db : Db) : Response * Db :=
  match transact (
    reservation ← select_pending_for_update reservationId;
    match reservation with
    | None => mret (inl "Reservation already processed or not found")
    | Some reservation =>
        update_status cancelled reservationId ≫= λ _,
        increment_available_seats (seats reservation) (flight_id reservation) ≫= λ _,
        mret (inr cancelled)
    end) db
  with
  | (inr (inl m), db') => (Success 200 (Message m), db')
  | (inr (inr s), db') => (Success 200 (StatusIs s), db')
  | (inl message, db') => (Failure 500 "COMPENSATION_FAILED" message, db')
  end.

(** The loop of the cleanup job, [for (const res of expired) { ... }]:
    two [UPDATE]s for each selected row. *)
Definition cleanup_loop (rows : list ExpiredRow) : Tx unit :=
  for_of rows (λ res,
    update_status expired (row_id res) ≫= λ _,
    increment_available_seats (row_seats res) (row_flight_id res)).

(** One run of the interval callback of [startReservationCleanupJob];
    [now] is the value of SQL [NOW()].  Its [catch] only logs, so a
    failed pass yields the database unchanged as well. *)
Definition reservationCleanupTick (now : Z) (db : Db) : Db :=
  (transact (
    rows ← select_expired now;
    cleanup_loop rows) db).2.

(** ** Schedules *)

(** The units of work, in the order in which they commit.  A request to
    one of the three endpoints reads the rows it acts on under
    [FOR UPDATE] and is one step.  The [SELECT] of the cleanup job takes
    no lock and its loop updates by id, so a pass is two steps, the
    [SELECT] and the loop with its commit, and other units (requests,
    other passes) may commit between the two.  The loop is one step: a
    row it has updated stays locked until the pass commits, so a unit
    that commits while the loop runs has touched none of those rows and
    is as if it had committed before the loop.  [SweepLoop i] is the loop
    of the [i]-th of the passes that have selected their rows and not yet
    run their loop. *)
Inductive Op : Type :=
  | Reserve (flightId : string) (bookingId : JsVal) (seats_in : option Z)
            (uuid : string) (now : Z)
  | Confirm (reservationId : string)
  | Cancel (reservationId : string)
  | SweepSelect (now : Z)
  | SweepLoop (pass : nat).

(** The database, and for each pass in flight the rows its [SELECT]
    matched. *)
Record Service : Type := mkService {
  database  : Db;
  in_flight : list (list (string * Reservation))
}.

(** A service with no pass in flight. *)
Definition idle (db : Db) : Service := mkService db [].

(** The loop of a pass over the rows it selected, and its commit. *)
Definition run_loop (selected : list (string * Reservation)) (db : Db) : Db :=
  match cleanup_loop (project_row <$> selected) db with
  | inl _ => db
  | inr (_, db') => db'
  end.

Definition step (s : Service) (o : Op) : Service :=
  match o with
  | Reserve f b q u t =>
      mkService (createReservation f b q u t (database s)).2 (in_flight s)
  | Confirm rid => mkService (confirmReservation rid (database s)).2 (in_flight s)
  | Cancel rid => mkService (cancelReservation rid (database s)).2 (in_flight s)
  | SweepSelect t =>
      mkService (database s) (in_flight s ++ [stale_rows t (database s)])%list
  | SweepLoop i =>
      match in_flight s !! i with
      | Some selected =>
          mkService (run_loop selected (database s)) (delete i (in_flight s))
      | None => s
      end
  end.

Definition run (ops : list Op) (s : Service) : Service := foldl step s ops.

(** The quantity a request asks for is positive. *)
Definition positive_quantity (o : Op) : Prop :=
  match o with
  | Reserve _ _ q _ _ => 0 < default 1 q
  | _ => True
  end.

(** A schedule in which no unit commits between the [SELECT] of a pass
    and its loop: started with no pass in flight, every pass runs as one
    transaction on the database it selected from. *)
Fixpoint serial (ops : list Op) : bool :=
  match ops with
  | [] => true
  | SweepSelect _ :: SweepLoop O :: rest => serial rest
  | SweepSelect _ :: _ => false
  | SweepLoop _ :: _ => false
  | _ :: rest => serial rest
  end.

(** ** Observations *)

Definition status_of (reservationId : string) (db : Db) : option Status :=
  status <$> flight_reservations db !! reservationId.

(** Sum of [g] over the rows of a table, each row counted once. *)
Definition table_sum {V : Type} (g : V → Z) (m : gmap string V) : Z :=
  map_fold (λ _ v acc, g v + acc) 0 m.

(** A reservation holds seats of its flight while pending or confirmed. *)
Definition holds_seats (r : Reservation) : bool :=
  match status r with
  | pending | confirmed => true
  | cancelled | expired => false
  end.

Definition held_on (f : string) (r : Reservation) : Z :=
  if holds_seats r && bool_decide (flight_id r = f) then seats r else 0.

(** Seats of flight [f] held by pending and confirmed reservations. *)
Definition held_seats (f : string) (db : Db) : Z :=
  table_sum (held_on f) (flight_reservations db).

Definition stale_on (now : Z) (f : string) (r : Reservation) : Z :=
  if is_stale now r && bool_decide (flight_id r = f) then seats r else 0.

(** Seats of flight [f] held by the reservations a cleanup pass at [now]
    selects. *)
Definition stale_seats (now : Z) (f : string) (db : Db) : Z :=
  table_sum (stale_on now f) (flight_reservations db).

(** What the cleanup pass does to one row. *)
Definition expire_if_stale (now : Z) (r : Reservation) : Reservation :=
  if is_stale now r then set_status expired r else r.

(** ** The cleanup loop, statement by statement *)

(** The cleanup job's [SELECT] carries no [FOR UPDATE]: where the database
    serves it as a non-locking read (InnoDB's default), the loop may run
    on a database [db] that another transaction has changed since the rows
    were selected from [seen].  [reservationCleanupTick now db] is the
    case [seen = db]. *)
Definition cleanup_on_snapshot (now : Z) (seen db : Db) : Db :=
  match cleanup_loop (project_row <$> stale_rows now seen) db with
  | inl _ => db
  | inr (_, db') => db'
  end.

(** The two [UPDATE]s of the loop, folded over the selected rows. *)
Definition expire_rows (l : list (string * Reservation))
    (rs : gmap string Reservation) : gmap string Reservation :=
  foldl (λ acc kv, alter (set_status expired) kv.1 acc) rs l.

Definition credit_rows (l : list (string * Reservation))
    (fl : gmap string Z) : gmap string Z :=
  foldl (λ acc kv, alter (λ a, a + seats kv.2) (flight_id kv.2) acc) fl l.

(** Seats the rows of [l] give back to flight [f]. *)
Definition list_credit (f : string) (l : list (string * Reservation)) : Z :=
  foldr (λ kv acc,
           (if bool_decide (flight_id kv.2 = f) then seats kv.2 else 0) + acc) 0 l.

(** ** Repeated requests *)

(** [n] Cancel requests for the same reservation, one after the other. *)
Fixpoint cancel_times (n : nat) (reservationId : string) (db : Db) : Db :=
  match n with
  | O => db
  | S n' => cancel_times n' reservationId (cancelReservation reservationId db).2
  end.

(** ** Invariants *)

(** Every row of the ledger holds a positive number of seats. *)
Definition seats_positive (db : Db) : Prop :=
  ∀ rid r, flight_reservations db !! rid = Some r → 0 < seats r.

(** Flight [f] has a row, its free seats are not negative, and free seats
    plus held seats make up the capacity [C]. *)
Definition seats_accounted (C : Z) (f : string) (db : Db) : Prop :=
  ∃ a, flights db !! f = Some a ∧ 0 ≤ a ∧ a + held_seats f db = C.

(** Free seats and held seats of flight [f] add up to [C], whatever their
    signs. *)
Definition seats_conserved (C : Z) (f : string) (db : Db) : Prop :=
  ∃ a, flights db !! f = Some a ∧ a + held_seats f db = C.

(** A row [r'] is a later state of the row [r] in a serial schedule: the
    columns written at creation are the same, the status moved only if it
    was pending, and the expiry time is the old one or [NULL]. *)
Definition later_state_of (r r' : Reservation) : Prop :=
  flight_id r' = flight_id r
  ∧ booking_id r' = booking_id r
  ∧ seats r' = seats r
  ∧ (status r' = status r ∨ status r = pending ∧ status r' ≠ pending)
  ∧ (expires_at r' = expires_at r ∨ expires_at r' = None).

(** The same in any schedule, where a loop may also rewrite a status that
    is not pending to expired. *)
Definition later_or_expired (r r' : Reservation) : Prop :=
  flight_id r' = flight_id r
  ∧ booking_id r' = booking_id r
  ∧ seats r' = seats r
  ∧ (status r' = status r ∨ status r = pending ∧ status r' ≠ pending
     ∨ status r' = expired)
  ∧ (expires_at r' = expires_at r ∨ expires_at r' = None).

(** ** Input validation, as a proposition *)

(** The reading of the validation rule under which a request is refused
    for a falsy [bookingId] and for a quantity that is not positive: the
    response is a failure and the database is left as it was. *)
Definition rejects_invalid_input (flightId : string) (bookingId : JsVal)
    (seats_in : option Z) (uuid : string) (now : Z) (db : Db) : Prop :=
  truthy bookingId = false ∨ default 1 seats_in ≤ 0 →
  is_success (createReservation flightId bookingId seats_in uuid now db).1 = false
  ∧ (createReservation flightId bookingId seats_in uuid now db).2 = db.

(** ** Sample databases and request sequences *)

(** One flight [U] with two free seats and an empty ledger. *)
Definition one_flight_db : Db := mkDb {[ "U" := 2 ]} ∅.

(** Flight [U] and one cancelled reservation, its expiry time still in
    the row. *)
Definition cancelled_row_db : Db :=
  mkDb {[ "U" := 2 ]}
       {[ "rA" := mkReservation "U" (JsStr "A") 1 cancelled (Some 900000) ]}.

(** Flight [U] with one free seat and one pending reservation. *)
Definition pending_row_db : Db :=
  mkDb {[ "U" := 1 ]}
       {[ "rA" := mkReservation "U" (JsStr "A") 1 pending (Some 900000) ]}.

(** Two holds on flight [U]: [rA] ran out at 900000, [rB] runs out at
    960000. *)
Definition two_holds_db : Db :=
  mkDb {[ "U" := 0 ]}
       (<[ "rA" := mkReservation "U" (JsStr "A") 2 pending (Some 900000) ]>
          {[ "rB" := mkReservation "U" (JsStr "B") 1 pending (Some 960000) ]}).

(** Reserve, confirm, cancel, reserve again and sweep on one flight. *)
Definition busy_day : list Op :=
  [ Reserve "U" (JsStr "A") (Some 2) "rA" 0;
    Reserve "U" (JsStr "B") None "rB" 1000;
    Confirm "rA";
    Cancel "rB";
    Reserve "U" (JsStr "C") (Some 1) "rC" 2000;
    SweepSelect 1000000;
    SweepLoop 0 ].

(** A sequence of requests with a quantity of zero and a negative one. *)
Definition odd_requests : list Op :=
  [ Reserve "U" (JsStr "A") (Some (-1)) "rA" 0;
    Reserve "U" (JsStr "B") (Some 0) "rB" 0;
    Cancel "rA";
    Reserve "V" (JsStr "C") None "rC" 0;
    SweepSelect 900001;
    SweepLoop 0 ].

(** A hold of both seats of flight [U] that runs out; a cleanup pass
    selects it; its Cancel commits before the loop of the pass runs; a
    Reserve of three seats follows. *)
Definition raced_cancel : list Op :=
  [ Reserve "U" (JsStr "A") (Some 2) "rA" 0;
    SweepSelect 900001;
    Cancel "rA";
    SweepLoop 0;
    Reserve "U" (JsStr "B") (Some 3) "rB" 900002 ].

(** A cleanup pass at 900001 that loses the race for its rows to the
    request [o], which commits between the [SELECT] of the pass and its
    loop. *)
Definition lost_race (o : Op) : list Op :=
  [ SweepSelect 900001; o; SweepLoop 0 ].

(** * Flight search

    The search handlers of the same service: [searchFlights] (GET and
    POST /flights/search), [getFlightsByRoute] and the four filter
    builders.  The handlers assemble an SQL text with [?] placeholders and
    a parameter array and hand both to MySQL; what is embedded here is
    that assembly, not the evaluation of the query. *)

(** ** The filter builders *)

(** What the builders modelled here read of a row of [flights]:
    [airline], a string, and [duration_minutes], an integer. *)
Record FlightRow : Type := mkFlightRow {
  airline          : string;
  duration_minutes : Z
}.

Record StopsFilter : Type := mkStopsFilter {
  direct    : nat;
  oneStop   : nat;
  multiStop : nat
}.

Definition buildStopsFilter (rows : list FlightRow) : StopsFilter :=
  mkStopsFilter
    (length (filter (λ f, duration_minutes f ≤ 300) rows))
    (length (filter (λ f, 300 < duration_minutes f ∧ duration_minutes f ≤ 600) rows))
    (length (filter (λ f, 600 < duration_minutes f) rows)).

Record RangeFilter : Type := mkRangeFilter {
  range_min : Z;
  range_max : Z;
  range_avg : Z
}.

(** [Math.min(...xs)] and [Math.max(...xs)] of the non-empty [x :: xs]. *)
Definition Math_min (x : Z) (xs : list Z) : Z := foldl Z.min x xs.
Definition Math_max (x : Z) (xs : list Z) : Z := foldl Z.max x xs.

(** [Number.MAX_SAFE_INTEGER].  The integers up to it are doubles, and a
    sum or a product of two of them that stays within it is exact. *)
Definition MAX_SAFE_INTEGER : Z := 2 ^ 53 - 1.

Definition safe_integer (z : Z) : bool := Z.abs z <=? MAX_SAFE_INTEGER.

(** [a + b] on doubles, where it is the sum of the integers; [None] where
    double precision may round. *)
Definition js_add (a b : Z) : option Z :=
  if safe_integer a && safe_integer b && safe_integer (a + b)
  then Some (a + b) else None.

(** [xs.reduce((a, b) => a + b, 0)] *)
Definition js_sum (xs : list Z) : option Z :=
  foldl (λ acc x, acc ≫= λ a, js_add a x) (Some 0) xs.

(** [Math.round(s / n)] for safe integers [s] and [n > 0]: the nearest
    integer, a tie going up.  For [2 |s| + 3 n < 2^53] the double
    quotient rounds to the same integer as the exact one; [None]
    otherwise. *)
Definition Math_round_ratio (s n : Z) : option Z :=
  if (0 <? n) && (2 * Z.abs s + 3 * n <? 2 ^ 53)
  then Some ((2 * s + n) / (2 * n)) else None.

(** [None]: the durations leave the range in which the double arithmetic
    of the source is the integer arithmetic written here. *)
Definition buildDurationRange (rows : list FlightRow) : option RangeFilter :=
  match duration_minutes <$> rows with
  | [] => Some (mkRangeFilter 0 0 0)
  | d :: ds =>
      js_sum (d :: ds) ≫= λ sum,
      Math_round_ratio sum (Z.of_nat (length (d :: ds))) ≫= λ avg,
      Some (mkRangeFilter (Math_min d ds) (Math_max d ds) avg)
  end.

(** An ASCII character in upper case: [a] to [z] become [A] to [Z]. *)
Definition ascii_upper (c : Ascii.ascii) : Ascii.ascii :=
  let n := Ascii.nat_of_ascii c in
  if (97 <=? n)%nat && (n <=? 122)%nat then Ascii.ascii_of_nat (n - 32) else c.

(** [s.toUpperCase()] for a string of ASCII characters; [None] for a
    string with other characters, whose upper case is not modelled. *)
Fixpoint toUpperCase (s : string) : option string :=
  match s with
  | EmptyString => Some EmptyString
  | String c s' =>
      if (Ascii.nat_of_ascii c <? 128)%nat
      then String (ascii_upper c) <$> toUpperCase s'
      else None
  end.

(** [s.substring(0, 2).toUpperCase()] *)
Definition airline_code (s : string) : option string :=
  toUpperCase (String.substring 0 2 s).

(** [code] is [None] where [airline_code] is. *)
Record AirlineFilter : Type := mkAirlineFilter {
  code  : option string;
  name  : string;
  count : Z
}.

Definition bump (e : AirlineFilter) : AirlineFilter :=
  mkAirlineFilter (code e) (name e) (count e + 1).

Section AirlineFilters.

(** [inherited k]: the object literal [{}] inherits a truthy property
    named [k] ([constructor], [toString], [__proto__], ...), so that
    [airlines[k]] is truthy although [k] is not a key of [airlines]. *)
Variable inherited : string → bool.

(** The body of the [forEach]: [airlines] holds the object's own
    properties.  For an inherited name the [if] is skipped and [count++]
    lands on the inherited object, which [alter] on a missing key leaves
    out. *)
Definition count_flight (airlines : gmap string AirlineFilter) (flight : FlightRow)
    : gmap string AirlineFilter :=
  let airlines1 :=
    match airlines !! airline flight with
    | Some _ => airlines
    | None =>
        if inherited (airline flight) then airlines
        else <[airline flight :=
                 mkAirlineFilter (airline_code (airline flight)) (airline flight) 0]>
               airlines
    end in
  alter bump (airline flight) airlines1.

Definition airline_table (rows : list FlightRow) : gmap string AirlineFilter :=
  foldl count_flight ∅ rows.

(** [Object.values(airlines)], in the order of the map. *)
Definition buildAirlineFilters (rows : list FlightRow) : list AirlineFilter :=
  (map_to_list (airline_table rows)).*2.

End AirlineFilters.

(** Number of rows of [rows] whose airline is [k]. *)
Definition flights_of (k : string) (rows : list FlightRow) : nat :=
  length (filter (λ f, airline f = k) rows).

(** Sum of the [count]s of a list of airline filters. *)
Definition total_count (l : list AirlineFilter) : Z :=
  foldr (λ e acc, count e + acc) 0 l.

(** ** The query of [searchFlights] *)

(** [searchParams.airlines]: an array, or anything else. *)
Inductive AirlinesParam : Type :=
  | AirlinesArray (l : list JsVal)
  | AirlinesOther (v : JsVal).

Record FlightSearchRequest : Type := mkFlightSearchRequest {
  origin        : JsVal;
  destination   : JsVal;
  departureDate : JsVal;
  maxPrice      : JsVal;
  class         : JsVal;
  directOnly    : JsVal;
  airlines      : AirlinesParam
}.

(** A value bound to a placeholder: as it came, or through [Number(...)]
    (which is not evaluated here). *)
Inductive SqlParam : Type :=
  | Bound (v : JsVal)
  | BoundNumber (v : JsVal).

Record Query : Type := mkQuery {
  whereClause : string;
  params      : list SqlParam
}.

(** [whereClause += clause; params.push(...ps)] *)
Definition and_clause (clause : string) (ps : list SqlParam) (q : Query) : Query :=
  mkQuery (whereClause q +:+ clause) (params q ++ ps)%list.

(** [String(v) === 'true'] *)
Definition String_is_true (v : JsVal) : bool :=
  match v with
  | JsBool b => b
  | JsStr s => String.eqb s "true"
  | _ => false
  end.

(** [l.map(() => '?').join(',')] *)
Definition placeholders {A : Type} (l : list A) : string :=
  String.concat "," ((λ _, "?") <$> l).

(** Lines 245 to 283 of [searchFlights].  A non-empty string in
    [airlines] has a positive [length] and no [map]: the template throws
    a [TypeError]. *)
Definition searchFlights_query (p : FlightSearchRequest) : string + Query :=
  let q := mkQuery "WHERE 1=1" [] in
  let q := if truthy (origin p)
           then and_clause " AND origin_airport_code = ?" [Bound (origin p)] q else q in
  let q := if truthy (destination p)
           then and_clause " AND destination_airport_code = ?" [Bound (destination p)] q
           else q in
  let q := if truthy (departureDate p)
           then and_clause " AND DATE(departure_time) = ?" [Bound (departureDate p)] q
           else q in
  let q := if truthy (maxPrice p)
           then and_clause " AND price <= ?" [Bound (maxPrice p)] q else q in
  let q := if truthy (class p)
           then and_clause " AND class = ?" [Bound (class p)] q else q in
  let isDirectOnly := String_is_true (directOnly p) in
  let q := if isDirectOnly then and_clause " AND duration_minutes <= 300" [] q else q in
  match airlines p with
  | AirlinesArray l =>
      if bool_decide (0 < length l)%nat
      then inr (and_clause (" AND airline IN (" +:+ placeholders l +:+ ")") (Bound <$> l) q)
      else inr q
  | AirlinesOther (JsStr s) =>
      if truthy (JsStr s)
      then inl "searchParams.airlines.map is not a function"
      else inr q
  | AirlinesOther _ => inr q
  end.

(** The query as it stands when [searchFlights] reaches the [airlines]
    test: the first six steps of [searchFlights_query]. *)
Definition scalar_filters (p : FlightSearchRequest) : Query :=
  let q := mkQuery "WHERE 1=1" [] in
  let q := if truthy (origin p)
           then and_clause " AND origin_airport_code = ?" [Bound (origin p)] q else q in
  let q := if truthy (destination p)
           then and_clause " AND destination_airport_code = ?" [Bound (destination p)] q
           else q in
  let q := if truthy (departureDate p)
           then and_clause " AND DATE(departure_time) = ?" [Bound (departureDate p)] q
           else q in
  let q := if truthy (maxPrice p)
           then and_clause " AND price <= ?" [Bound (maxPrice p)] q else q in
  let q := if truthy (class p)
           then and_clause " AND class = ?" [Bound (class p)] q else q in
  if String_is_true (directOnly p)
  then and_clause " AND duration_minutes <= 300" [] q else q.

(** The value of [Number(x)]: not a number, or an integer, which is a
    double when [safe_integer] holds of it.  Fractions and infinities are
    left out. *)
Inductive JsNumber : Type :=
  | JsNaN
  | JsInt (z : Z).

(** [n || d] *)
Definition number_or (n : JsNumber) (d : Z) : Z :=
  match n with
  | JsNaN => d
  | JsInt z => if z =? 0 then d else z
  end.

(** [page_offset] is [None] where [(page - 1) * limit] is not exact in
    double precision. *)
Record Page : Type := mkPage {
  page_limit  : Z;
  page_offset : option Z
}.

(** Lines 285 to 287: [page], [limit] and [offset] from
    [Number(req.query.page)] and [Number(req.query.limit)]. *)
Definition pagination (page_in limit_in : JsNumber) : Page :=
  let page := number_or page_in 1 in
  let limit := Z.min (number_or limit_in 20) 100 in
  let offset :=
    if safe_integer page && safe_integer ((page - 1) * limit)
    then Some ((page - 1) * limit) else None in
  mkPage limit offset.

(** What [searchFlights] does with a request that is not served from the
    cache: the response it sends without a query, or the query it runs. *)
Inductive SearchPlan : Type :=
  | Respond (resp : Response)
  | RunQuery (q : Query) (pg : Page).

Definition searchFlights_plan (p : FlightSearchRequest) (page_in limit_in : JsNumber)
    : SearchPlan :=
  if negb (truthy (origin p)) || negb (truthy (destination p)) then
    Respond (Failure 400 "VALIDATION_ERROR" "Origin and destination are required fields")
  else
    match searchFlights_query p with
    | inl message => Respond (Failure 500 "INTERNAL_ERROR" message)
    | inr q => RunQuery q (pagination page_in limit_in)
    end.

(** ** The query of [getFlightsByRoute] *)

(** [origin] and [destination] are path segments; [date], [maxPrice] and
    [flightClass] come from the query string.  The statement ends in
    [LIMIT 50]. *)
Definition getFlightsByRoute_query (origin destination : string)
    (date maxPrice flightClass : JsVal) : Query :=
  let q := mkQuery "WHERE origin_airport_code = ? AND destination_airport_code = ?"
             [Bound (JsStr origin); Bound (JsStr destination)] in
  let q := if truthy date
           then and_clause " AND DATE(departure_time) = ?" [Bound date] q else q in
  let q := if truthy maxPrice
           then and_clause " AND price <= ?" [BoundNumber maxPrice] q else q in
  let q := if truthy flightClass
           then and_clause " AND class = ?" [Bound flightClass] q else q in
  q.

(** ** Reading a query *)

(** The character [?]. *)
Definition placeholder : Ascii.ascii := Ascii.ascii_of_nat 63.

(** Occurrences of the character [c] in [s]. *)
Fixpoint count_char (c : Ascii.ascii) (s : string) : nat :=
  match s with
  | EmptyString => 0
  | String a s' => (if Ascii.eqb a c then 1 else 0) + count_char c s'
  end.

(** The placeholders of the text and the bound values agree in number:
    what [execute] needs to run the statement. *)
Definition well_bound (q : Query) : Prop :=
  count_char placeholder (whereClause q) = length (params q).

(** What of a request decides the text of its query. *)
Definition airlines_shape (a : AirlinesParam) : nat + bool :=
  match a with
  | AirlinesArray l => inl (length l)
  | AirlinesOther v => inr (match v with JsStr _ => truthy v | _ => false end)
  end.

Definition request_shape (p : FlightSearchRequest)
    : bool * bool * bool * bool * bool * bool * (nat + bool) :=
  (truthy (origin p), truthy (destination p), truthy (departureDate p),
   truthy (maxPrice p), truthy (class p), String_is_true (directOnly p),
   airlines_shape (airlines p)).

(** The text of the outcome: the [WHERE] clause, or the error message. *)
Definition query_text (r : string + Query) : string + string :=
  match r with
  | inl message => inl message
  | inr q => inr (whereClause q)
  end.

(** ** Sample requests *)

(** JFK to LAX on a date, two airlines, direct flights only. *)
Definition jfk_lax_search : FlightSearchRequest :=
  mkFlightSearchRequest (JsStr "JFK") (JsStr "LAX") (JsStr "2025-12-15")
    JsUndefined JsUndefined (JsStr "true")
    (AirlinesArray [JsStr "Delta"; JsStr "United"]).

(** The same search with text in every value that could close a quote. *)
Definition hostile_search : FlightSearchRequest :=
  mkFlightSearchRequest (JsStr "' OR 1=1 --") (JsStr "?") (JsStr "x'; DROP TABLE flights")
    JsUndefined JsUndefined (JsBool true)
    (AirlinesArray [JsStr "?,?"; JsStr "')"]).

(** A search without a destination. *)
Definition one_way_search : FlightSearchRequest :=
  mkFlightSearchRequest (JsStr "JFK") (JsStr "") JsUndefined
    JsUndefined JsUndefined JsUndefined (AirlinesOther JsUndefined).

(** The property names an object literal inherits in Node.js. *)
Definition node_inherited (k : string) : bool :=
  bool_decide (k ∈ ["constructor"; "__defineGetter__"; "__defineSetter__";
                    "hasOwnProperty"; "__lookupGetter__"; "__lookupSetter__";
                    "isPrototypeOf"; "propertyIsEnumerable"; "toString"; "valueOf";
                    "__proto__"; "toLocaleString"]).

(** Three flights, one of them of an airline called [constructor]. *)
Definition three_flights : list FlightRow :=
  [ mkFlightRow "Delta" 101; mkFlightRow "constructor" 320; mkFlightRow "Delta" 700 ].

(** * Properties *)

Ltac tx_unfold :=
  unfold transact, mbind, Tx_bind, mret, Tx_ret, throw,
    select_flight_for_update, decrement_available_seats,
    increment_available_seats, insert_reservation,
    select_pending_for_update, update_status, update_status_clear_expiry,
    with_flights, with_reservations in *.

(** ** The handlers in closed form *)

Lemma lookup_pending_Some rid db r :
  lookup_pending rid db = Some r ↔
  flight_reservations db !! rid = Some r ∧ status r = pending.
Proof.
  unfold lookup_pending. destruct (flight_reservations db !! rid) as [r'|].
  - destruct (decide (status r' = pending)) as [Hp|Hp].
    + split; [intros [= ->]; done | intros [[= ->] _]; done].
    + split; [done | intros [[= ->] ?]; done].
  - split; [done | intros [? _]; done].
Qed.

Lemma lookup_pending_None rid db :
  lookup_pending rid db = None ↔ status_of rid db ≠ Some pending.
Proof.
  unfold lookup_pending, status_of.
  destruct (flight_reservations db !! rid) as [r'|]; simpl.
  - destruct (decide (status r' = pending)) as [Hp|Hp].
    + rewrite Hp. split; [done | intros H; by destruct H].
    + split; [intros _ [= ?]; done | done].
  - split; done.
Qed.

Lemma createReservation_rejected flightId bookingId seats_in uuid now db :
  truthy bookingId = false →
  createReservation flightId bookingId seats_in uuid now db
  = (Failure 400 "BAD_REQUEST" "bookingId is required", db).
Proof. intros H. unfold createReservation. now rewrite H. Qed.

Lemma createReservation_no_flight flightId bookingId seats_in uuid now db :
  truthy bookingId = true →
  flights db !! flightId = None →
  createReservation flightId bookingId seats_in uuid now db
  = (Failure 500 "RESERVATION_FAILED" "Flight not found", db).
Proof.
  intros Hb Hf. unfold createReservation. rewrite Hb. simpl.
  tx_unfold. now rewrite Hf.
Qed.

Lemma createReservation_no_seats flightId bookingId seats_in uuid now db a :
  truthy bookingId = true →
  flights db !! flightId = Some a →
  a < default 1 seats_in →
  createReservation flightId bookingId seats_in uuid now db
  = (Failure 500 "RESERVATION_FAILED" "Not enough available seats", db).
Proof.
  intros Hb Hf Hlt. unfold createReservation. rewrite Hb. simpl.
  tx_unfold. rewrite Hf.
  destruct (Z.ltb_spec a (default 1 seats_in)); [done | lia].
Qed.

Lemma createReservation_duplicate flightId bookingId seats_in uuid now db a :
  truthy bookingId = true →
  flights db !! flightId = Some a →
  default 1 seats_in ≤ a →
  is_Some (flight_reservations db !! uuid) →
  createReservation flightId bookingId seats_in uuid now db
  = (Failure 500 "RESERVATION_FAILED" "Duplicate entry for key PRIMARY", db).
Proof.
  intros Hb Hf Hle [r Hr]. unfold createReservation. rewrite Hb. simpl.
  tx_unfold. rewrite Hf.
  destruct (Z.ltb_spec a (default 1 seats_in)); [lia |].
  simpl. now rewrite Hr.
Qed.

Lemma createReservation_created flightId bookingId seats_in uuid now db a :
  truthy bookingId = true →
  flights db !! flightId = Some a →
  default 1 seats_in ≤ a →
  flight_reservations db !! uuid = None →
  createReservation flightId bookingId seats_in uuid now db
  = (Success 201 (ReservationId uuid),
     mkDb (<[flightId := a - default 1 seats_in]> (flights db))
          (<[uuid := mkReservation flightId bookingId (default 1 seats_in)
                       pending (Some (now + HOLD_WINDOW_MS))]>
             (flight_reservations db))).
Proof.
  intros Hb Hf Hle Hr. unfold createReservation. rewrite Hb. simpl.
  tx_unfold. rewrite Hf.
  destruct (Z.ltb_spec a (default 1 seats_in)); [lia |].
  simpl. rewrite Hr. do 3 f_equal.
  apply map_eq. intros j. rewrite lookup_alter, lookup_insert.
  case_decide; subst; [now rewrite Hf | done].
Qed.

Lemma confirmReservation_pending rid db r :
  lookup_pending rid db = Some r →
  confirmReservation rid db
  = (Success 200 (StatusIs confirmed),
     mkDb (flights db)
          (<[rid := set_status_clear_expiry confirmed r]> (flight_reservations db))).
Proof.
  intros H. unfold confirmReservation. tx_unfold. rewrite H. simpl.
  apply lookup_pending_Some in H as [H _]. do 2 f_equal.
  apply map_eq. intros j. rewrite lookup_alter, lookup_insert.
  case_decide; subst; [now rewrite H | done].
Qed.

Lemma confirmReservation_not_pending rid db :
  lookup_pending rid db = None →
  confirmReservation rid db
  = (Failure 500 "CONFIRMATION_FAILED"
       "Pending reservation not found or already processed", db).
Proof. intros H. unfold confirmReservation. tx_unfold. now rewrite H. Qed.

Lemma cancelReservation_pending rid db r :
  lookup_pending rid db = Some r →
  cancelReservation rid db
  = (Success 200 (StatusIs cancelled),
     mkDb (alter (λ a, a + seats r) (flight_id r) (flights db))
          (<[rid := set_status cancelled r]> (flight_reservations db))).
Proof.
  intros H. unfold cancelReservation. tx_unfold. rewrite H. simpl.
  apply lookup_pending_Some in H as [H _]. do 2 f_equal.
  apply map_eq. intros j. rewrite lookup_alter, lookup_insert.
  case_decide; subst; [now rewrite H | done].
Qed.

Lemma cancelReservation_not_pending rid db :
  lookup_pending rid db = None →
  cancelReservation rid db
  = (Success 200 (Message "Reservation already processed or not found"), db).
Proof. intros H. unfold cancelReservation. tx_unfold. now rewrite H. Qed.

(** ** Sums over a table *)

Section TableSum.
Context {V : Type}.
Implicit Types (g : V → Z) (m : gmap string V).

Lemma table_sum_empty g : table_sum g (∅ : gmap string V) = 0.
Proof. unfold table_sum. apply map_fold_empty. Qed.

Lemma table_sum_insert g m i x :
  m !! i = None → table_sum g (<[i := x]> m) = g x + table_sum g m.
Proof.
  intros Hi. unfold table_sum.
  rewrite map_fold_insert_L; [done | | done].
  intros. lia.
Qed.

Lemma table_sum_delete g m i x :
  m !! i = Some x → table_sum g m = g x + table_sum g (delete i m).
Proof.
  intros Hi. rewrite <- (insert_delete_id m i x) at 1 by done.
  apply table_sum_insert, lookup_delete_eq.
Qed.

(** Overwriting a row replaces its contribution. *)
Lemma table_sum_overwrite g m i x y :
  m !! i = Some x → table_sum g (<[i := y]> m) = table_sum g m - g x + g y.
Proof.
  intros Hi. rewrite (table_sum_delete g m i x Hi).
  rewrite <- insert_delete_eq.
  rewrite table_sum_insert by apply lookup_delete_eq. lia.
Qed.

Lemma table_sum_ext g1 g2 m :
  (∀ i x, m !! i = Some x → g1 x = g2 x) → table_sum g1 m = table_sum g2 m.
Proof.
  induction m as [|i x m Hi IH] using map_ind; intros Hg.
  - now rewrite !table_sum_empty.
  - rewrite !table_sum_insert by done. rewrite IH.
    + f_equal. apply (Hg i). apply lookup_insert_eq.
    + intros j y Hj. apply (Hg j). rewrite lookup_insert_ne; [done|].
      intros ->. congruence.
Qed.

Lemma table_sum_sub g1 g2 m :
  table_sum (λ v, g1 v - g2 v) m = table_sum g1 m - table_sum g2 m.
Proof.
  induction m as [|i x m Hi IH] using map_ind.
  - now rewrite !table_sum_empty.
  - rewrite !table_sum_insert by done. lia.
Qed.

Lemma table_sum_nonneg g m :
  (∀ i x, m !! i = Some x → 0 ≤ g x) → 0 ≤ table_sum g m.
Proof.
  induction m as [|i x m Hi IH] using map_ind; intros Hg.
  - now rewrite table_sum_empty.
  - rewrite table_sum_insert by done.
    assert (0 ≤ g x) by (apply (Hg i), lookup_insert_eq).
    assert (0 ≤ table_sum g m); [|lia].
    apply IH. intros j y Hj. apply (Hg j). rewrite lookup_insert_ne; [done|].
    intros ->. congruence.
Qed.

End TableSum.

Lemma table_sum_fmap {V W : Type} (g : W → Z) (h : V → W) (m : gmap string V) :
  table_sum g (h <$> m) = table_sum (λ v, g (h v)) m.
Proof.
  induction m as [|i x m Hi IH] using map_ind.
  - now rewrite fmap_empty, !table_sum_empty.
  - rewrite fmap_insert.
    rewrite (table_sum_insert g (h <$> m)) by (now rewrite lookup_fmap, Hi).
    rewrite table_sum_insert by done. now rewrite IH.
Qed.

(** ** The cleanup pass in closed form *)

Section Cleanup.
Implicit Types (l : list (string * Reservation)) (db : Db).

Lemma cleanup_loop_rows l db :
  cleanup_loop (project_row <$> l) db
  = inr (tt, mkDb (credit_rows l (flights db)) (expire_rows l (flight_reservations db))).
Proof.
  revert db. induction l as [|kv l IH]; intros db.
  - now destruct db.
  - unfold cleanup_loop in *. simpl. tx_unfold. simpl. now rewrite IH.
Qed.

Lemma expire_rows_lookup l rs j :
  expire_rows l rs !! j
  = if decide (j ∈ l.*1) then set_status expired <$> rs !! j else rs !! j.
Proof.
  revert rs. induction l as [|[i r] l IH]; intros rs.
  - destruct (decide (j ∈ ([] : list (string * Reservation)).*1)) as [Hj|Hj]; [|done].
    now apply elem_of_nil in Hj.
  - change (expire_rows ((i, r) :: l) rs)
      with (expire_rows l (alter (set_status expired) i rs)).
    rewrite IH, lookup_alter. change (((i, r) :: l).*1) with (i :: l.*1).
    destruct (decide (j ∈ l.*1)) as [Hj|Hj];
      destruct (decide (j ∈ i :: l.*1)) as [Hj'|Hj'];
      destruct (decide (i = j)) as [->|Hij]; try done.
    + now destruct (rs !! j).
    + exfalso. apply Hj'. now apply list_elem_of_further.
    + exfalso. apply Hj'. now apply list_elem_of_further.
    + apply elem_of_cons in Hj' as [?|?]; congruence.
    + exfalso. apply Hj'. apply list_elem_of_here.
Qed.

Lemma credit_rows_lookup l fl f :
  credit_rows l fl !! f = (λ a, a + list_credit f l) <$> fl !! f.
Proof.
  revert fl. induction l as [|[i r] l IH]; intros fl.
  - simpl. destruct (fl !! f); simpl; [f_equal; lia | done].
  - change (credit_rows ((i, r) :: l) fl)
      with (credit_rows l (alter (λ a, a + seats r) (flight_id r) fl)).
    rewrite IH, lookup_alter.
    change (list_credit f ((i, r) :: l))
      with ((if bool_decide (flight_id r = f) then seats r else 0) + list_credit f l).
    destruct (decide (flight_id r = f)) as [Hf|Hf].
    + rewrite bool_decide_eq_true_2 by done. rewrite Hf.
      destruct (fl !! f); cbn -[list_credit]; [f_equal; lia | done].
    + rewrite bool_decide_eq_false_2 by done.
      destruct (fl !! f); cbn -[list_credit]; [f_equal; lia | done].
Qed.

#[local] Instance list_credit_perm f : Proper ((≡ₚ) ==> (=)) (list_credit f).
Proof.
  intros l1 l2 Hp. induction Hp; simpl; [done | lia | lia | congruence].
Qed.

Lemma list_credit_stale now f (m : gmap string Reservation) :
  list_credit f (map_to_list (filter (λ kv, is_stale now kv.2 = true) m))
  = table_sum (stale_on now f) m.
Proof.
  induction m as [|i x m Hi IH] using map_ind.
  - now rewrite map_filter_empty, map_to_list_empty, table_sum_empty.
  - rewrite table_sum_insert by done. rewrite <- IH. unfold stale_on.
    destruct (is_stale now x) eqn:Hx.
    + rewrite map_filter_insert_True by done.
      rewrite map_to_list_insert by (now rewrite map_lookup_filter, Hi).
      simpl. now case_bool_decide.
    + rewrite map_filter_insert_not' ; [done | simpl; congruence |].
      intros y Hy. congruence.
Qed.

Lemma stale_selected now (m : gmap string Reservation) j :
  j ∈ (map_to_list (filter (λ kv, is_stale now kv.2 = true) m)).*1
  ↔ ∃ r, m !! j = Some r ∧ is_stale now r = true.
Proof.
  rewrite list_elem_of_fmap. split.
  - intros [[i r] [-> [Hl Hs]%elem_of_map_to_list%map_lookup_filter_Some]].
    now exists r.
  - intros [r [Hl Hs]]. exists (j, r). split; [done|].
    now apply elem_of_map_to_list, map_lookup_filter_Some.
Qed.

Lemma cleanup_tick_rows now db :
  reservationCleanupTick now db
  = mkDb (credit_rows (stale_rows now db) (flights db))
         (expire_rows (stale_rows now db) (flight_reservations db)).
Proof.
  transitivity
    (match cleanup_loop (project_row <$> stale_rows now db) db with
     | inl _ => db
     | inr (_, db') => db'
     end).
  - unfold reservationCleanupTick, transact, select_expired, mbind, Tx_bind.
    now destruct (cleanup_loop _ db) as [?|[? ?]].
  - now rewrite cleanup_loop_rows.
Qed.

Lemma cleanup_reservations now db :
  flight_reservations (reservationCleanupTick now db)
  = expire_if_stale now <$> flight_reservations db.
Proof.
  rewrite cleanup_tick_rows. unfold stale_rows. simpl.
  apply map_eq. intros j. rewrite expire_rows_lookup, lookup_fmap.
  unfold expire_if_stale.
  destruct (decide _) as [Hj|Hj].
  - apply stale_selected in Hj as [r [-> Hs]]. simpl. now rewrite Hs.
  - destruct (flight_reservations db !! j) as [r|] eqn:Hr; [|done]. simpl.
    destruct (is_stale now r) eqn:Hs; [|done].
    exfalso. apply Hj, stale_selected. eauto.
Qed.

Lemma cleanup_flights now db f :
  flights (reservationCleanupTick now db) !! f
  = (λ a, a + stale_seats now f db) <$> flights db !! f.
Proof.
  rewrite cleanup_tick_rows. unfold stale_rows. simpl.
  rewrite credit_rows_lookup. unfold stale_seats. now rewrite list_credit_stale.
Qed.

End Cleanup.

(** ** Reserve: input validation *)

(** C3 as stated does not hold of the handler: a request for [-1] seats
    with a booking id is served, the response is [201], a pending row is
    written and the flight gains a seat. *)
Lemma reserve_serves_negative_quantity :
  ¬ rejects_invalid_input "U" (JsStr "A") (Some (-1)) "rA" 0 one_flight_db.
Proof.
  unfold rejects_invalid_input. intros H.
  destruct H as [H _]; [right; vm_compute; discriminate |].
  vm_compute in H. discriminate H.
Qed.

(** C3 (as the handler implements it): a request whose [bookingId] is
    missing or empty (falsy) is answered [400 BAD_REQUEST] before any
    transaction is opened and the database is left as it was; a request
    with a [bookingId] is never answered [400], whatever its quantity. *)
Theorem createReservation_validates_bookingId
    (flightId : string) (bookingId : JsVal) (seats_in : option Z)
    (uuid : string) (now : Z) (db : Db) :
  (truthy bookingId = false →
     createReservation flightId bookingId seats_in uuid now db
     = (Failure 400 "BAD_REQUEST" "bookingId is required", db))
  ∧ (truthy bookingId = true →
     ∀ code message,
       (createReservation flightId bookingId seats_in uuid now db).1
       ≠ Failure 400 code message).
Proof.
  split.
  - apply createReservation_rejected.
  - intros Hb code message. unfold createReservation. rewrite Hb. simpl.
    destruct (transact _ db) as [[?|?] ?]; simpl; discriminate.
Qed.

Lemma createReservation_validates_bookingId_witness :
  createReservation "U" (JsStr "") (Some 1) "rA" 0 one_flight_db
  = (Failure 400 "BAD_REQUEST" "bookingId is required", one_flight_db)
  ∧ ∀ code message,
      (createReservation "U" (JsStr "A") (Some 0) "rA" 0 one_flight_db).1
      ≠ Failure 400 code message.
Proof.
  split.
  - apply (proj1 (createReservation_validates_bookingId
                    "U" (JsStr "") (Some 1) "rA" 0 one_flight_db)).
    reflexivity.
  - apply (proj2 (createReservation_validates_bookingId
                    "U" (JsStr "A") (Some 0) "rA" 0 one_flight_db)).
    reflexivity.
Defined.

(** ** Confirm *)

Lemma confirm_leaves_not_pending rid db :
  lookup_pending rid (confirmReservation rid db).2 = None.
Proof.
  destruct (lookup_pending rid db) as [r|] eqn:Hp.
  - rewrite (confirmReservation_pending _ _ _ Hp). simpl.
    unfold lookup_pending. simpl. now rewrite lookup_insert_eq.
  - now rewrite (confirmReservation_not_pending _ _ Hp).
Qed.

(** C6: Confirm on a reservation that is absent or not pending answers
    with a failure and leaves the whole database (every reservation,
    every flight) as it was; a Confirm that follows a Confirm of the
    same reservation always fails in that way. *)
Theorem confirm_is_strict (reservationId : string) (db : Db) :
  (status_of reservationId db ≠ Some pending →
     confirmReservation reservationId db
     = (Failure 500 "CONFIRMATION_FAILED"
          "Pending reservation not found or already processed", db))
  ∧ (let db1 := (confirmReservation reservationId db).2 in
     confirmReservation reservationId db1
     = (Failure 500 "CONFIRMATION_FAILED"
          "Pending reservation not found or already processed", db1)).
Proof.
  split.
  - intros H. now apply confirmReservation_not_pending, lookup_pending_None.
  - simpl. apply confirmReservation_not_pending, confirm_leaves_not_pending.
Qed.

Lemma confirm_is_strict_witness :
  confirmReservation "rA" cancelled_row_db
  = (Failure 500 "CONFIRMATION_FAILED"
       "Pending reservation not found or already processed", cancelled_row_db).
Proof.
  apply (proj1 (confirm_is_strict "rA" cancelled_row_db)).
  vm_compute. discriminate.
Defined.

(** C8: a Confirm that succeeds leaves the [flights] table and every
    other reservation untouched; of the target row it changes [status]
    (to confirmed) and [expires_at] (to [NULL]) and nothing else. *)
Theorem confirm_frame (reservationId : string) (db db' : Db) (resp : Response) :
  confirmReservation reservationId db = (resp, db') →
  is_success resp = true →
  flights db' = flights db
  ∧ (∀ other, other ≠ reservationId →
       flight_reservations db' !! other = flight_reservations db !! other)
  ∧ ∃ r, flight_reservations db !! reservationId = Some r
         ∧ status r = pending
         ∧ flight_reservations db' !! reservationId
           = Some (mkReservation (flight_id r) (booking_id r) (seats r) confirmed None).
Proof.
  intros Hc Hs. destruct (lookup_pending reservationId db) as [r|] eqn:Hp.
  - rewrite (confirmReservation_pending _ _ _ Hp) in Hc.
    injection Hc as <- <-. simpl.
    apply lookup_pending_Some in Hp as [Hr Hst].
    split; [done|]. split.
    + intros other Hne. now rewrite lookup_insert_ne.
    + exists r. now rewrite lookup_insert_eq.
  - rewrite (confirmReservation_not_pending _ _ Hp) in Hc.
    injection Hc as <- <-. discriminate Hs.
Qed.

Lemma confirm_frame_witness :
  flights (confirmReservation "rA" pending_row_db).2 = flights pending_row_db
  ∧ (∀ other, other ≠ "rA" →
       flight_reservations (confirmReservation "rA" pending_row_db).2 !! other
       = flight_reservations pending_row_db !! other)
  ∧ ∃ r, flight_reservations pending_row_db !! "rA" = Some r
         ∧ status r = pending
         ∧ flight_reservations (confirmReservation "rA" pending_row_db).2 !! "rA"
           = Some (mkReservation (flight_id r) (booking_id r) (seats r) confirmed None).
Proof.
  apply (confirm_frame "rA" pending_row_db _ (Success 200 (StatusIs confirmed)));
    reflexivity.
Defined.

(** ** Cancel *)

Lemma cancel_leaves_not_pending rid db :
  lookup_pending rid (cancelReservation rid db).2 = None.
Proof.
  destruct (lookup_pending rid db) as [r|] eqn:Hp.
  - rewrite (cancelReservation_pending _ _ _ Hp). simpl.
    unfold lookup_pending. simpl. now rewrite lookup_insert_eq.
  - now rewrite (cancelReservation_not_pending _ _ Hp).
Qed.

Lemma cancel_succeeds rid db : is_success (cancelReservation rid db).1 = true.
Proof.
  destruct (lookup_pending rid db) as [r|] eqn:Hp.
  - now rewrite (cancelReservation_pending _ _ _ Hp).
  - now rewrite (cancelReservation_not_pending _ _ Hp).
Qed.

Lemma cancel_times_not_pending n rid db :
  lookup_pending rid db = None → cancel_times n rid db = db.
Proof.
  revert db. induction n as [|n IH]; intros db Hp; [done|].
  simpl. rewrite (cancelReservation_not_pending _ _ Hp). simpl. now apply IH.
Qed.

(** C5: every Cancel answers with success, whatever the state of the
    reservation.  A Cancel of a reservation that is absent, confirmed,
    cancelled or expired changes nothing; a Cancel that finds the
    reservation pending marks it cancelled and adds its seats to its
    flight once; and any number of further Cancels of that reservation
    leaves the database where the first one left it. *)
Theorem cancel_is_idempotent (reservationId : string) (db : Db) :
  (∀ n, is_success (cancelReservation reservationId
                      (cancel_times n reservationId db)).1 = true)
  ∧ (∀ n, cancel_times (S n) reservationId db
          = (cancelReservation reservationId db).2)
  ∧ (status_of reservationId db ≠ Some pending →
       (cancelReservation reservationId db).2 = db)
  ∧ (∀ r, flight_reservations db !! reservationId = Some r →
          status r = pending →
          (cancelReservation reservationId db).2
          = mkDb (alter (λ a, a + seats r) (flight_id r) (flights db))
                 (<[reservationId := set_status cancelled r]>
                    (flight_reservations db))).
Proof.
  repeat split.
  - intros n. apply cancel_succeeds.
  - intros n. simpl. apply cancel_times_not_pending, cancel_leaves_not_pending.
  - intros H. apply lookup_pending_None in H.
    now rewrite (cancelReservation_not_pending _ _ H).
  - intros r Hr Hst.
    assert (lookup_pending reservationId db = Some r) as Hp
      by now apply lookup_pending_Some.
    now rewrite (cancelReservation_pending _ _ _ Hp).
Qed.

Lemma cancel_is_idempotent_witness :
  (cancelReservation "rA" cancelled_row_db).2 = cancelled_row_db
  ∧ flights (cancelReservation "rA" pending_row_db).2 !! "U" = Some 2
  ∧ flights (cancel_times 3 "rA" pending_row_db) !! "U" = Some 2.
Proof.
  destruct (cancel_is_idempotent "rA" cancelled_row_db) as (_ & _ & Hno & _).
  destruct (cancel_is_idempotent "rA" pending_row_db) as (_ & Hn & _ & Hyes).
  split; [|split].
  - apply Hno. vm_compute. discriminate.
  - rewrite (Hyes (mkReservation "U" (JsStr "A") 1 pending (Some 900000)));
      reflexivity.
  - rewrite (Hn 2%nat).
    rewrite (Hyes (mkReservation "U" (JsStr "A") 1 pending (Some 900000)));
      reflexivity.
Defined.

(** ** The cleanup pass *)

Lemma is_stale_true now r :
  is_stale now r = true ↔
  status r = pending ∧ ∃ e, expires_at r = Some e ∧ e < now.
Proof.
  unfold is_stale. destruct (status r), (expires_at r) as [e|];
    try (split; [discriminate | intros [? [? [? ?]]]; congruence]).
  rewrite Z.ltb_lt. split.
  - intros He. split; [done|]. now exists e.
  - intros [_ [e' [[= <-] He]]]. done.
Qed.

Lemma not_pending_not_stale now r : status r ≠ pending → is_stale now r = false.
Proof. unfold is_stale. now destruct (status r). Qed.

Lemma expire_if_stale_fresh now r :
  is_stale now (expire_if_stale now r) = false.
Proof.
  unfold expire_if_stale. destruct (is_stale now r) eqn:Hs; [|done].
  now apply not_pending_not_stale.
Qed.

(** A reservation counts in [stale_seats] once, for its own flight. *)
Lemma stale_seats_split now f db rid r :
  flight_reservations db !! rid = Some r →
  stale_seats now f db
  = stale_on now f r
    + stale_seats now f (with_reservations (delete rid (flight_reservations db)) db).
Proof. intros Hr. unfold stale_seats. simpl. now apply table_sum_delete. Qed.

(** C7: a cleanup pass at time [now] marks every pending reservation
    whose [expires_at] is before [now] as expired, leaves every pending
    reservation whose [expires_at] is [now] or later as it is, and adds
    to each flight the seats of its reservations that it expired, every
    such reservation counted once. *)
Theorem cleanup_expires_stale (now : Z) (db : Db) :
  (∀ rid r e,
     flight_reservations db !! rid = Some r →
     status r = pending → expires_at r = Some e → e < now →
     flight_reservations (reservationCleanupTick now db) !! rid
     = Some (set_status expired r))
  ∧ (∀ rid r e,
     flight_reservations db !! rid = Some r →
     status r = pending → expires_at r = Some e → now ≤ e →
     flight_reservations (reservationCleanupTick now db) !! rid = Some r)
  ∧ (∀ f, flights (reservationCleanupTick now db) !! f
          = (λ a, a + stale_seats now f db) <$> flights db !! f)
  ∧ (∀ f rid r,
     flight_reservations db !! rid = Some r →
     stale_seats now f db
     = (if is_stale now r && bool_decide (flight_id r = f) then seats r else 0)
       + stale_seats now f
           (with_reservations (delete rid (flight_reservations db)) db)).
Proof.
  split; [|split; [|split]].
  - intros rid r e Hr Hst He Hlt.
    rewrite cleanup_reservations, lookup_fmap, Hr. simpl.
    unfold expire_if_stale.
    replace (is_stale now r) with true; [done|].
    symmetry. apply is_stale_true. eauto.
  - intros rid r e Hr Hst He Hle.
    rewrite cleanup_reservations, lookup_fmap, Hr. simpl.
    unfold expire_if_stale.
    destruct (is_stale now r) eqn:Hs; [|done].
    apply is_stale_true in Hs as [_ [e' [He' Hlt]]].
    assert (e' = e) by congruence. lia.
  - apply cleanup_flights.
  - intros f rid r Hr. now apply stale_seats_split.
Qed.

Lemma cleanup_expires_stale_witness :
  flight_reservations (reservationCleanupTick 960000 two_holds_db) !! "rA"
  = Some (mkReservation "U" (JsStr "A") 2 expired (Some 900000))
  ∧ flight_reservations (reservationCleanupTick 960000 two_holds_db) !! "rB"
    = Some (mkReservation "U" (JsStr "B") 1 pending (Some 960000))
  ∧ flights (reservationCleanupTick 960000 two_holds_db) !! "U" = Some 2.
Proof.
  destruct (cleanup_expires_stale 960000 two_holds_db) as (Hold & Hfresh & Hfl & _).
  split; [|split].
  - apply (Hold "rA" (mkReservation "U" (JsStr "A") 2 pending (Some 900000)) 900000);
      [reflexivity | reflexivity | reflexivity | lia].
  - apply (Hfresh "rB" (mkReservation "U" (JsStr "B") 1 pending (Some 960000)) 960000);
      [reflexivity | reflexivity | reflexivity | lia].
  - rewrite (Hfl "U"). reflexivity.
Defined.

(** A reservation that has left pending (confirmed, cancelled or expired)
    before the cleanup pass selects its rows is not selected: its row is
    left as it is, and the [flights] table after the pass is the one the
    pass would have produced had the reservation not been in the ledger
    at all, so none of its seats is given back. *)
Theorem cleanup_skips_resolved (now : Z) (db : Db) (rid : string) (r : Reservation) :
  flight_reservations db !! rid = Some r →
  status r ≠ pending →
  flight_reservations (reservationCleanupTick now db) !! rid = Some r
  ∧ flights (reservationCleanupTick now db)
    = flights (reservationCleanupTick now
                 (with_reservations (delete rid (flight_reservations db)) db)).
Proof.
  intros Hr Hst. split.
  - rewrite cleanup_reservations, lookup_fmap, Hr. simpl.
    unfold expire_if_stale. now rewrite not_pending_not_stale.
  - apply map_eq. intros f. rewrite !cleanup_flights. simpl.
    rewrite (stale_seats_split now f db rid r Hr).
    unfold stale_on. now rewrite not_pending_not_stale.
Qed.

Lemma cleanup_skips_resolved_witness :
  flight_reservations (reservationCleanupTick 960000 cancelled_row_db) !! "rA"
  = Some (mkReservation "U" (JsStr "A") 1 cancelled (Some 900000))
  ∧ flights (reservationCleanupTick 960000 cancelled_row_db)
    = flights (reservationCleanupTick 960000
                 (with_reservations
                    (delete "rA" (flight_reservations cancelled_row_db))
                    cancelled_row_db)).
Proof.
  apply (cleanup_skips_resolved 960000 cancelled_row_db "rA");
    [reflexivity | vm_compute; discriminate].
Defined.

Lemma no_stale_rows_after_cleanup now db :
  stale_rows now (reservationCleanupTick now db) = [].
Proof.
  unfold stale_rows. rewrite cleanup_reservations.
  apply map_to_list_empty_iff, map_empty. intros j.
  apply map_lookup_filter_None. right. intros r Hr. simpl.
  apply lookup_fmap_Some in Hr as [r0 [<- _]].
  now rewrite expire_if_stale_fresh.
Qed.

(** C10: a second cleanup pass at the same time selects no row and
    leaves the database as the first pass left it. *)
Theorem cleanup_is_idempotent (now : Z) (db : Db) :
  stale_rows now (reservationCleanupTick now db) = []
  ∧ reservationCleanupTick now (reservationCleanupTick now db)
    = reservationCleanupTick now db.
Proof.
  split; [apply no_stale_rows_after_cleanup|].
  rewrite (cleanup_tick_rows now (reservationCleanupTick now db)).
  rewrite no_stale_rows_after_cleanup. simpl.
  now destruct (reservationCleanupTick now db).
Qed.

(** *** Rows that change after they were selected

    The theorems above take a pass as one step.  The loop itself does not
    look at a row's status again before it updates it: *)

Lemma cleanup_tick_snapshot now db :
  reservationCleanupTick now db = cleanup_on_snapshot now db db.
Proof.
  unfold cleanup_on_snapshot. now rewrite cleanup_tick_rows, cleanup_loop_rows.
Qed.

(** if a Confirm or a Cancel commits after the pass has selected its rows
    and before the loop reaches the row, the loop marks the reservation
    expired all the same and adds its seat to the flight: a seat more than
    the confirmed reservation left free, and a second credit for the
    cancelled one. *)
Remark commit_after_select_is_overwritten :
  let confirmed_db := (confirmReservation "rA" pending_row_db).2 in
  let cancelled_db := (cancelReservation "rA" pending_row_db).2 in
  status_of "rA" confirmed_db = Some confirmed
  ∧ flights confirmed_db !! "U" = Some 1
  ∧ status_of "rA" (cleanup_on_snapshot 900001 pending_row_db confirmed_db)
    = Some expired
  ∧ flights (cleanup_on_snapshot 900001 pending_row_db confirmed_db) !! "U"
    = Some 2
  ∧ status_of "rA" cancelled_db = Some cancelled
  ∧ flights cancelled_db !! "U" = Some 2
  ∧ status_of "rA" (cleanup_on_snapshot 900001 pending_row_db cancelled_db)
    = Some expired
  ∧ flights (cleanup_on_snapshot 900001 pending_row_db cancelled_db) !! "U"
    = Some 3.
Proof. vm_compute. repeat split. Qed.

(** C4 (where the cleanup job parts from it): a reservation that leaves
    pending after the pass has selected it and before the loop reaches it
    is not skipped.  Flight [U] has one free seat and the pending
    reservation [rA] holds another.  When a Confirm commits in between,
    the reservation is confirmed and the flight has one free seat; the
    loop then rewrites the reservation to expired and the flight has two.
    When a Cancel commits in between, the reservation is cancelled and the
    flight has two free seats; the loop then rewrites it to expired and
    the flight has three. *)
Theorem lost_race_is_not_skipped :
  status_of "rA" (database (run (take 2 (lost_race (Confirm "rA"))) (idle pending_row_db)))
  = Some confirmed
  ∧ flights (database (run (take 2 (lost_race (Confirm "rA"))) (idle pending_row_db))) !! "U"
    = Some 1
  ∧ status_of "rA" (database (run (lost_race (Confirm "rA")) (idle pending_row_db)))
    = Some expired
  ∧ flights (database (run (lost_race (Confirm "rA")) (idle pending_row_db))) !! "U"
    = Some 2
  ∧ status_of "rA" (database (run (take 2 (lost_race (Cancel "rA"))) (idle pending_row_db)))
    = Some cancelled
  ∧ flights (database (run (take 2 (lost_race (Cancel "rA"))) (idle pending_row_db))) !! "U"
    = Some 2
  ∧ status_of "rA" (database (run (lost_race (Cancel "rA")) (idle pending_row_db)))
    = Some expired
  ∧ flights (database (run (lost_race (Cancel "rA")) (idle pending_row_db))) !! "U"
    = Some 3.
Proof. vm_compute. repeat split. Qed.

(** ** No oversell *)

Lemma createReservation_outcome flightId bookingId seats_in uuid now db :
  (createReservation flightId bookingId seats_in uuid now db).2 = db
  ∨ ∃ a, flights db !! flightId = Some a
         ∧ default 1 seats_in ≤ a
         ∧ flight_reservations db !! uuid = None
         ∧ (createReservation flightId bookingId seats_in uuid now db).2
           = mkDb (<[flightId := a - default 1 seats_in]> (flights db))
                  (<[uuid := mkReservation flightId bookingId (default 1 seats_in)
                               pending (Some (now + HOLD_WINDOW_MS))]>
                     (flight_reservations db)).
Proof.
  destruct (truthy bookingId) eqn:Hb.
  2: { left. now rewrite createReservation_rejected. }
  destruct (flights db !! flightId) as [a|] eqn:Hf.
  2: { left. now rewrite createReservation_no_flight. }
  destruct (Z.lt_ge_cases a (default 1 seats_in)) as [Hlt|Hle].
  { left. now rewrite (createReservation_no_seats _ _ _ _ _ _ a). }
  destruct (flight_reservations db !! uuid) as [r|] eqn:Hr.
  { left. now rewrite (createReservation_duplicate _ _ _ _ _ _ a). }
  right. exists a. repeat split; try done.
  now rewrite (createReservation_created _ _ _ _ _ _ a).
Qed.

Lemma held_on_status_change f r s :
  holds_seats r = true →
  holds_seats (set_status_clear_expiry s r) = true →
  held_on f (set_status_clear_expiry s r) = held_on f r.
Proof. unfold held_on. simpl. now intros -> ->. Qed.

Lemma reserve_preserves C f flightId bookingId seats_in uuid now db :
  0 < default 1 seats_in →
  seats_positive db → seats_accounted C f db →
  seats_positive (createReservation flightId bookingId seats_in uuid now db).2
  ∧ seats_accounted C f (createReservation flightId bookingId seats_in uuid now db).2.
Proof.
  intros Hq Hpos (a & Ha & Hnn & Hsum).
  destruct (createReservation_outcome flightId bookingId seats_in uuid now db)
    as [-> | (a' & Hf & Hle & Hfresh & ->)].
  { split; [done | now exists a]. }
  split.
  - intros rid r. simpl. rewrite lookup_insert. case_decide.
    + now intros [= <-].
    + apply Hpos.
  - unfold seats_accounted, held_seats. simpl.
    rewrite table_sum_insert by done. unfold held_on at 1. simpl.
    destruct (decide (flightId = f)) as [->|Hne].
    + rewrite lookup_insert_eq, bool_decide_eq_true_2 by done.
      assert (a' = a) by congruence. subst a'.
      eexists. split; [done|]. unfold held_seats in Hsum. lia.
    + rewrite lookup_insert_ne, bool_decide_eq_false_2 by done.
      exists a. unfold held_seats in Hsum. split; [done|]. lia.
Qed.

Lemma confirm_preserves C f rid db :
  seats_positive db → seats_accounted C f db →
  seats_positive (confirmReservation rid db).2
  ∧ seats_accounted C f (confirmReservation rid db).2.
Proof.
  intros Hpos (a & Ha & Hnn & Hsum).
  destruct (lookup_pending rid db) as [r|] eqn:Hp.
  2: { rewrite (confirmReservation_not_pending _ _ Hp).
       split; [done | now exists a]. }
  rewrite (confirmReservation_pending _ _ _ Hp). simpl.
  apply lookup_pending_Some in Hp as [Hr Hst]. split.
  - intros j x. simpl. rewrite lookup_insert. case_decide.
    + intros [= <-]. simpl. now apply (Hpos rid).
    + apply Hpos.
  - exists a. unfold held_seats in *. simpl.
    rewrite (table_sum_overwrite _ _ _ r) by done.
    rewrite held_on_status_change; [split; [done|]; lia | | done].
    unfold holds_seats. now rewrite Hst.
Qed.

Lemma cancel_preserves C f rid db :
  seats_positive db → seats_accounted C f db →
  seats_positive (cancelReservation rid db).2
  ∧ seats_accounted C f (cancelReservation rid db).2.
Proof.
  intros Hpos (a & Ha & Hnn & Hsum).
  destruct (lookup_pending rid db) as [r|] eqn:Hp.
  2: { rewrite (cancelReservation_not_pending _ _ Hp).
       split; [done | now exists a]. }
  rewrite (cancelReservation_pending _ _ _ Hp). simpl.
  apply lookup_pending_Some in Hp as [Hr Hst].
  pose proof (Hpos rid r Hr) as Hq. split.
  - intros j x. simpl. rewrite lookup_insert. case_decide.
    + intros [= <-]. now simpl.
    + apply Hpos.
  - unfold seats_accounted, held_seats in *. simpl.
    rewrite (table_sum_overwrite _ _ _ r) by done.
    unfold held_on at 2 3. simpl. unfold holds_seats at 1. rewrite Hst. simpl.
    rewrite lookup_alter.
    destruct (decide (flight_id r = f)) as [Hf|Hf].
    + rewrite bool_decide_eq_true_2 by done. rewrite Hf, Ha. simpl.
      eexists. split; [done|]. lia.
    + rewrite bool_decide_eq_false_2 by done.
      exists a. split; [done|]. lia.
Qed.

Lemma held_after_cleanup now f r :
  held_on f (expire_if_stale now r) = held_on f r - stale_on now f r.
Proof.
  unfold held_on, stale_on, expire_if_stale.
  destruct (is_stale now r) eqn:Hs.
  - apply is_stale_true in Hs as [Hst _]. unfold holds_seats. simpl.
    rewrite Hst. simpl. case_bool_decide; lia.
  - simpl. lia.
Qed.

Lemma sweep_preserves C f now db :
  seats_positive db → seats_accounted C f db →
  seats_positive (reservationCleanupTick now db)
  ∧ seats_accounted C f (reservationCleanupTick now db).
Proof.
  intros Hpos (a & Ha & Hnn & Hsum). split.
  - intros j x. rewrite cleanup_reservations.
    intros [r [<- Hr]]%lookup_fmap_Some.
    unfold expire_if_stale. destruct (is_stale now r); simpl; now apply (Hpos j).
  - exists (a + stale_seats now f db). rewrite cleanup_flights, Ha.
    split; [done|].
    assert (0 ≤ stale_seats now f db) as Hst.
    { apply table_sum_nonneg. intros j r Hr. unfold stale_on.
      pose proof (Hpos j r Hr). destruct (_ && _); lia. }
    split; [lia|].
    unfold held_seats. rewrite cleanup_reservations, table_sum_fmap.
    rewrite (table_sum_ext _ (λ r, held_on f r - stale_on now f r))
      by (intros; apply held_after_cleanup).
    rewrite table_sum_sub. unfold held_seats, stale_seats in *. lia.
Qed.

(** *** Schedules *)

Lemma run_loop_snapshot now seen db :
  run_loop (stale_rows now seen) db = cleanup_on_snapshot now seen db.
Proof. reflexivity. Qed.

(** A pass whose loop follows its [SELECT] at once is the cleanup job run
    as one transaction. *)
Lemma atomic_pass now db rest :
  run (SweepSelect now :: SweepLoop 0 :: rest) (idle db)
  = run rest (idle (reservationCleanupTick now db)).
Proof.
  unfold run, idle. simpl. unfold run_loop. simpl.
  now rewrite cleanup_loop_rows, cleanup_tick_rows.
Qed.

Section Invariants.
Variable P : Db → Prop.
Variable ok : Op → Prop.
Hypothesis reserve_keeps : ∀ f b q u t db,
  ok (Reserve f b q u t) → P db → P (createReservation f b q u t db).2.
Hypothesis confirm_keeps : ∀ rid db, P db → P (confirmReservation rid db).2.
Hypothesis cancel_keeps : ∀ rid db, P db → P (cancelReservation rid db).2.

(** What the three handlers and every loop keep holds after any
    schedule. *)
Lemma run_invariant :
  (∀ selected db, P db → P (run_loop selected db)) →
  ∀ ops s, Forall ok ops → P (database s) → P (database (run ops s)).
Proof.
  intros loop_keeps ops. induction ops as [|o ops IH]; intros s Hok HP; [done|].
  apply Forall_cons in Hok as [Ho Hok].
  simpl. apply IH; [done|].
  destruct o as [f b q u t | rid | rid | t | i]; simpl; auto.
  destruct (in_flight s !! i); simpl; auto.
Qed.

(** What the three handlers and the cleanup job as one transaction keep
    holds after any serial schedule, which ends with no pass in flight. *)
Lemma serial_invariant :
  (∀ now db, P db → P (reservationCleanupTick now db)) →
  ∀ ops db, serial ops = true → Forall ok ops → P db →
    P (database (run ops (idle db))) ∧ in_flight (run ops (idle db)) = [].
Proof.
  intros pass_keeps ops.
  assert ((∀ db, serial ops = true → Forall ok ops → P db →
             P (database (run ops (idle db))) ∧ in_flight (run ops (idle db)) = [])
          ∧ ∀ o db, serial (o :: ops) = true → Forall ok (o :: ops) → P db →
             P (database (run (o :: ops) (idle db)))
             ∧ in_flight (run (o :: ops) (idle db)) = []) as [H _]; [|exact H].
  induction ops as [|a ops [IH1 IH2]].
  - split; [done|]. intros o db Hs Hok HP.
    apply Forall_cons in Hok as [Ho _].
    destruct o as [f b q u t | rid | rid | t | i]; try discriminate; simpl; auto.
  - split; [apply IH2|]. intros o db Hs Hok HP.
    apply Forall_cons in Hok as [Ho Hok].
    destruct o as [f b q u t | rid | rid | t | i]; try discriminate.
    + apply (IH2 a (createReservation f b q u t db).2); auto.
    + apply (IH2 a (confirmReservation rid db).2); auto.
    + apply (IH2 a (cancelReservation rid db).2); auto.
    + destruct a as [| | | |[|i]]; try discriminate.
      rewrite atomic_pass. apply Forall_cons in Hok as [_ Hok].
      apply IH1; auto.
Qed.

End Invariants.

(** In a serial schedule with positive quantities the seats are accounted
    for: the seats held by pending and confirmed reservations do not
    exceed the capacity and [available_seats] is not negative. *)
Lemma serial_schedules_do_not_oversell
    (ops : list Op) (fl : gmap string Z) (f : string) (C : Z) :
  fl !! f = Some C →
  0 ≤ C →
  serial ops = true →
  Forall positive_quantity ops →
  held_seats f (database (run ops (idle (mkDb fl ∅)))) ≤ C
  ∧ ∃ a, flights (database (run ops (idle (mkDb fl ∅)))) !! f = Some a ∧ 0 ≤ a.
Proof.
  intros Hf HC Hser Hops.
  destruct (serial_invariant (λ db, seats_positive db ∧ seats_accounted C f db)
              positive_quantity) with (ops := ops) (db := mkDb fl ∅)
    as [[_ (a & Ha & Hnn & Hsum)] _]; try done.
  - intros f' b q u t db Hq [Hpos Hacc]. now apply reserve_preserves.
  - intros rid db [Hpos Hacc]. now apply confirm_preserves.
  - intros rid db [Hpos Hacc]. now apply cancel_preserves.
  - intros now db [Hpos Hacc]. now apply sweep_preserves.
  - split.
    + intros rid r. simpl. now rewrite lookup_empty.
    + exists C. unfold held_seats. simpl. rewrite table_sum_empty.
      split; [done|]. split; lia.
  - split; [lia | now exists a].
Qed.

(** C1 (where the cleanup job breaks it): flight [U] has two seats.  A
    hold of both runs out and a cleanup pass selects it; the Cancel of
    the hold commits before the loop of the pass runs, so the two seats
    are given back twice, by the Cancel and by the loop; a Reserve of
    three seats then succeeds.  Every quantity is positive, and the
    pending reservation holds three seats of a flight that has two. *)
Theorem raced_cancel_oversells :
  Forall positive_quantity raced_cancel
  ∧ flights (database (run (take 4 raced_cancel) (idle one_flight_db))) !! "U" = Some 4
  ∧ flight_reservations (database (run raced_cancel (idle one_flight_db))) !! "rB"
    = Some (mkReservation "U" (JsStr "B") 3 pending (Some 1800002))
  ∧ held_seats "U" (database (run raced_cancel (idle one_flight_db))) = 3
  ∧ flights one_flight_db !! "U" = Some 2.
Proof.
  split; [repeat constructor; simpl; lia|].
  vm_compute. repeat split.
Qed.

(** ** A capacity-two flight *)

(** C9: on a flight with two free seats, a Reserve of two seats for
    booking A succeeds and leaves none; a Reserve of one seat for booking
    B then fails for lack of seats and changes nothing; Cancel of A's
    reservation succeeds and brings the free seats back to two; the
    Reserve for booking B then succeeds. *)
Theorem capacity_two_scenario :
  let '(resp1, db1) := createReservation "U" (JsStr "A") (Some 2) "rA" 0 one_flight_db in
  let '(resp2, db2) := createReservation "U" (JsStr "B") (Some 1) "rB" 1000 db1 in
  let '(resp3, db3) := cancelReservation "rA" db2 in
  let '(resp4, db4) := createReservation "U" (JsStr "B") (Some 1) "rB" 2000 db3 in
  resp1 = Success 201 (ReservationId "rA") ∧ flights db1 !! "U" = Some 0
  ∧ resp2 = Failure 500 "RESERVATION_FAILED" "Not enough available seats"
  ∧ db2 = db1
  ∧ resp3 = Success 200 (StatusIs cancelled) ∧ flights db3 !! "U" = Some 2
  ∧ resp4 = Success 201 (ReservationId "rB") ∧ flights db4 !! "U" = Some 1
  ∧ status_of "rB" db4 = Some pending.
Proof. vm_compute. repeat split. Qed.

(** C2 (where the handlers part from it): [expires_at] is set when the
    reservation is created and Confirm writes [NULL] to it, but Cancel and
    the cleanup pass update [status] alone: the cancelled row and the
    expired row keep the expiry time they were created with. *)
Theorem expiry_kept_by_cancel_and_cleanup :
  let db1 := (createReservation "U" (JsStr "A") (Some 1) "rA" 0 one_flight_db).2 in
  flight_reservations db1 !! "rA"
  = Some (mkReservation "U" (JsStr "A") 1 pending (Some 900000))
  ∧ flight_reservations (confirmReservation "rA" db1).2 !! "rA"
    = Some (mkReservation "U" (JsStr "A") 1 confirmed None)
  ∧ flight_reservations (cancelReservation "rA" db1).2 !! "rA"
    = Some (mkReservation "U" (JsStr "A") 1 cancelled (Some 900000))
  ∧ flight_reservations (reservationCleanupTick 900001 db1) !! "rA"
    = Some (mkReservation "U" (JsStr "A") 1 expired (Some 900000)).
Proof. vm_compute. repeat split. Qed.


(** * Further properties of the reservation handlers *)

(** ** Reserve is all or nothing *)

(** X1: a Reserve request succeeds exactly when it carries a booking id,
    the flight exists with at least the requested seats and the generated
    id is new; it then answers [201] with that id, takes the seats from
    that flight only and adds one pending row that expires after the hold
    window.  A request that fails leaves the database as it was. *)
Theorem createReservation_all_or_nothing
    (flightId : string) (bookingId : JsVal) (seats_in : option Z)
    (uuid : string) (now : Z) (db : Db) :
  (is_success (createReservation flightId bookingId seats_in uuid now db).1 = true
   ↔ truthy bookingId = true
     ∧ (∃ a, flights db !! flightId = Some a ∧ default 1 seats_in ≤ a)
     ∧ flight_reservations db !! uuid = None)
  ∧ (is_success (createReservation flightId bookingId seats_in uuid now db).1 = false →
     (createReservation flightId bookingId seats_in uuid now db).2 = db)
  ∧ (is_success (createReservation flightId bookingId seats_in uuid now db).1 = true →
     (createReservation flightId bookingId seats_in uuid now db).1
     = Success 201 (ReservationId uuid)
     ∧ flight_reservations (createReservation flightId bookingId seats_in uuid now db).2
       = <[uuid := mkReservation flightId bookingId (default 1 seats_in) pending
                     (Some (now + HOLD_WINDOW_MS))]> (flight_reservations db)
     ∧ ∀ g, flights (createReservation flightId bookingId seats_in uuid now db).2 !! g
            = if decide (g = flightId)
              then (λ a, a - default 1 seats_in) <$> flights db !! g
              else flights db !! g).
Proof.
  destruct (truthy bookingId) eqn:Hb.
  2: { rewrite createReservation_rejected by done. simpl.
       split; [split; [discriminate | intros [? _]; discriminate] |].
       split; [done | discriminate]. }
  destruct (flights db !! flightId) as [a|] eqn:Hf.
  2: { rewrite createReservation_no_flight by done. simpl.
       split; [split; [discriminate | intros (_ & (a & ? & _) & _); discriminate] |].
       split; [done | discriminate]. }
  destruct (Z.lt_ge_cases a (default 1 seats_in)) as [Hlt|Hle].
  { rewrite (createReservation_no_seats _ _ _ _ _ _ a) by done. simpl.
    split; [split; [discriminate | intros (_ & (a' & [= <-] & ?) & _); lia] |].
    split; [done | discriminate]. }
  destruct (flight_reservations db !! uuid) as [r|] eqn:Hr.
  { rewrite (createReservation_duplicate _ _ _ _ _ _ a) by done. simpl.
    split; [split; [discriminate | intros (_ & _ & ?); discriminate] |].
    split; [done | discriminate]. }
  rewrite (createReservation_created _ _ _ _ _ _ a) by done. simpl.
  split; [split; [intros _; eauto | done] |].
  split; [discriminate |]. intros _. repeat split.
  intros g. rewrite lookup_insert. destruct (decide (g = flightId)) as [->|Hg].
  - rewrite decide_True by done. now rewrite Hf.
  - now rewrite decide_False by congruence.
Qed.

Lemma createReservation_all_or_nothing_witness :
  (createReservation "U" (JsStr "A") (Some 3) "rA" 0 one_flight_db).2 = one_flight_db
  ∧ (createReservation "U" (JsStr "A") None "rA" 0 one_flight_db).1
    = Success 201 (ReservationId "rA").
Proof.
  split.
  - apply (createReservation_all_or_nothing "U" (JsStr "A") (Some 3) "rA" 0 one_flight_db).
    reflexivity.
  - apply (createReservation_all_or_nothing "U" (JsStr "A") None "rA" 0 one_flight_db).
    reflexivity.
Defined.

(** The database a successful Reserve leaves behind. *)
Lemma createReservation_success flightId bookingId seats_in uuid now db :
  is_success (createReservation flightId bookingId seats_in uuid now db).1 = true →
  ∃ a, flights db !! flightId = Some a
       ∧ flight_reservations db !! uuid = None
       ∧ (createReservation flightId bookingId seats_in uuid now db).2
         = mkDb (<[flightId := a - default 1 seats_in]> (flights db))
                (<[uuid := mkReservation flightId bookingId (default 1 seats_in)
                             pending (Some (now + HOLD_WINDOW_MS))]>
                   (flight_reservations db)).
Proof.
  intros Hs.
  destruct (createReservation_outcome flightId bookingId seats_in uuid now db)
    as [Hsame | (a & Hf & Hle & Hfresh & Hdb)].
  - exfalso.
    destruct (createReservation_all_or_nothing flightId bookingId seats_in uuid now db)
      as ([Hiff _] & _ & Hsucc).
    destruct (Hiff Hs) as (Hb & (a & Hf & Hle) & Hfresh).
    rewrite (createReservation_created _ _ _ _ _ _ a) in Hsame by done.
    simpl in Hsame. apply (f_equal flight_reservations) in Hsame. simpl in Hsame.
    apply (f_equal (lookup uuid)) in Hsame.
    rewrite lookup_insert_eq, Hfresh in Hsame. discriminate.
  - exists a. eauto.
Qed.

(** ** Reserve and its two ways back *)

(** X2: cancelling a reservation that Reserve has just made gives every
    flight its seats back: the [flights] table is the one before the
    Reserve, and the ledger has gained one cancelled row. *)
Theorem reserve_then_cancel_restores_seats
    (flightId : string) (bookingId : JsVal) (seats_in : option Z)
    (uuid : string) (now : Z) (db : Db) :
  is_success (createReservation flightId bookingId seats_in uuid now db).1 = true →
  cancelReservation uuid (createReservation flightId bookingId seats_in uuid now db).2
  = (Success 200 (StatusIs cancelled),
     mkDb (flights db)
          (<[uuid := mkReservation flightId bookingId (default 1 seats_in) cancelled
                       (Some (now + HOLD_WINDOW_MS))]> (flight_reservations db))).
Proof.
  intros Hs. destruct (createReservation_success _ _ _ _ _ _ Hs) as (a & Hf & Hfresh & ->).
  rewrite (cancelReservation_pending _ _
             (mkReservation flightId bookingId (default 1 seats_in) pending
                (Some (now + HOLD_WINDOW_MS)))).
  2: { apply lookup_pending_Some. simpl. now rewrite lookup_insert_eq. }
  simpl. unfold set_status. simpl. do 2 f_equal.
  - rewrite alter_insert_eq.
    replace (a - default 1 seats_in + default 1 seats_in) with a by lia.
    now apply insert_id.
  - apply insert_insert_eq.
Qed.

Lemma reserve_then_cancel_restores_seats_witness :
  flights (cancelReservation "rA"
             (createReservation "U" (JsStr "A") (Some 2) "rA" 0 one_flight_db).2).2
  = flights one_flight_db.
Proof.
  rewrite (reserve_then_cancel_restores_seats "U" (JsStr "A") (Some 2) "rA" 0 one_flight_db);
    reflexivity.
Defined.

(** X3: a hold nobody confirms or cancels.  A cleanup pass that runs no
    later than the hold's expiry time leaves the new reservation pending;
    a pass that runs after it marks the reservation expired, leaves the
    [flights] table as the same pass would have left it without the
    Reserve, and a Confirm that arrives afterwards fails and changes
    nothing. *)
Theorem abandoned_hold_expires
    (flightId : string) (bookingId : JsVal) (seats_in : option Z)
    (uuid : string) (now t : Z) (db : Db) :
  is_success (createReservation flightId bookingId seats_in uuid now db).1 = true →
  (t ≤ now + HOLD_WINDOW_MS →
     flight_reservations
       (reservationCleanupTick t
          (createReservation flightId bookingId seats_in uuid now db).2) !! uuid
     = Some (mkReservation flightId bookingId (default 1 seats_in) pending
               (Some (now + HOLD_WINDOW_MS))))
  ∧ (now + HOLD_WINDOW_MS < t →
     flight_reservations
       (reservationCleanupTick t
          (createReservation flightId bookingId seats_in uuid now db).2) !! uuid
     = Some (mkReservation flightId bookingId (default 1 seats_in) expired
               (Some (now + HOLD_WINDOW_MS)))
     ∧ flights (reservationCleanupTick t
                  (createReservation flightId bookingId seats_in uuid now db).2)
       = flights (reservationCleanupTick t db)
     ∧ confirmReservation uuid
         (reservationCleanupTick t
            (createReservation flightId bookingId seats_in uuid now db).2)
       = (Failure 500 "CONFIRMATION_FAILED"
            "Pending reservation not found or already processed",
          reservationCleanupTick t
            (createReservation flightId bookingId seats_in uuid now db).2)).
Proof.
  intros Hs. destruct (createReservation_success _ _ _ _ _ _ Hs) as (a & Hf & Hfresh & ->).
  set (r := mkReservation flightId bookingId (default 1 seats_in) pending
              (Some (now + HOLD_WINDOW_MS))).
  split.
  - intros Ht. rewrite cleanup_reservations. simpl.
    rewrite lookup_fmap, lookup_insert_eq. simpl. unfold expire_if_stale, is_stale.
    simpl. destruct (Z.ltb_spec (now + HOLD_WINDOW_MS) t); [lia | done].
  - intros Ht.
    assert (is_stale t r = true) as Hst.
    { unfold is_stale. simpl. now apply Z.ltb_lt. }
    assert (flight_reservations
              (reservationCleanupTick t
                 (mkDb (<[flightId:=a - default 1 seats_in]> (flights db))
                       (<[uuid:=r]> (flight_reservations db)))) !! uuid
            = Some (set_status expired r)) as Hrow.
    { rewrite cleanup_reservations. simpl.
      rewrite lookup_fmap, lookup_insert_eq. simpl. unfold expire_if_stale.
      now rewrite Hst. }
    split; [exact Hrow|]. split.
    + apply map_eq. intros g. rewrite !cleanup_flights. simpl.
      unfold stale_seats. simpl. rewrite table_sum_insert by done.
      unfold stale_on at 1. rewrite Hst. simpl.
      destruct (decide (flightId = g)) as [<-|Hg].
      * rewrite lookup_insert_eq, Hf, bool_decide_eq_true_2 by done.
        simpl. f_equal. lia.
      * rewrite lookup_insert_ne, bool_decide_eq_false_2 by done.
        destruct (flights db !! g); simpl; [f_equal; lia | done].
    + apply confirmReservation_not_pending, lookup_pending_None.
      unfold status_of. rewrite Hrow. simpl. discriminate.
Qed.

Lemma abandoned_hold_expires_witness :
  flight_reservations
    (reservationCleanupTick 900000
       (createReservation "U" (JsStr "A") (Some 2) "rA" 0 one_flight_db).2) !! "rA"
  = Some (mkReservation "U" (JsStr "A") 2 pending (Some 900000))
  ∧ flights (reservationCleanupTick 900001
               (createReservation "U" (JsStr "A") (Some 2) "rA" 0 one_flight_db).2)
    = flights (reservationCleanupTick 900001 one_flight_db).
Proof.
  destruct (abandoned_hold_expires "U" (JsStr "A") (Some 2) "rA" 0 900000 one_flight_db)
    as [Hearly _]; [reflexivity|].
  destruct (abandoned_hold_expires "U" (JsStr "A") (Some 2) "rA" 0 900001 one_flight_db)
    as [_ Hlate]; [reflexivity|].
  split.
  - apply Hearly. vm_compute. discriminate.
  - apply Hlate. reflexivity.
Defined.

(** ** What no schedule ever does to a row *)

Lemma loop_reservations selected db rid :
  flight_reservations (run_loop selected db) !! rid
  = if decide (rid ∈ selected.*1)
    then set_status expired <$> flight_reservations db !! rid
    else flight_reservations db !! rid.
Proof. unfold run_loop. rewrite cleanup_loop_rows. simpl. apply expire_rows_lookup. Qed.

Lemma loop_flights selected db f :
  flights (run_loop selected db) !! f
  = (λ a, a + list_credit f selected) <$> flights db !! f.
Proof. unfold run_loop. rewrite cleanup_loop_rows. simpl. apply credit_rows_lookup. Qed.

Lemma reserve_keeps_rows f b q u t db rid r :
  flight_reservations db !! rid = Some r →
  flight_reservations (createReservation f b q u t db).2 !! rid = Some r.
Proof.
  intros Hr. destruct (createReservation_outcome f b q u t db)
    as [-> | (a & _ & _ & Hfresh & ->)]; [done|].
  simpl. rewrite lookup_insert_ne; [done | congruence].
Qed.

Lemma confirm_keeps_resolved rid' db rid r :
  flight_reservations db !! rid = Some r →
  status r ≠ pending →
  flight_reservations (confirmReservation rid' db).2 !! rid = Some r.
Proof.
  intros Hr Hst. destruct (lookup_pending rid' db) as [r'|] eqn:Hp.
  - rewrite (confirmReservation_pending _ _ _ Hp). simpl.
    apply lookup_pending_Some in Hp as [Hr' Hp'].
    rewrite lookup_insert_ne; [done | congruence].
  - now rewrite (confirmReservation_not_pending _ _ Hp).
Qed.

Lemma cancel_keeps_resolved rid' db rid r :
  flight_reservations db !! rid = Some r →
  status r ≠ pending →
  flight_reservations (cancelReservation rid' db).2 !! rid = Some r.
Proof.
  intros Hr Hst. destruct (lookup_pending rid' db) as [r'|] eqn:Hp.
  - rewrite (cancelReservation_pending _ _ _ Hp). simpl.
    apply lookup_pending_Some in Hp as [Hr' Hp'].
    rewrite lookup_insert_ne; [done | congruence].
  - now rewrite (cancelReservation_not_pending _ _ Hp).
Qed.

Lemma pass_keeps_resolved now db rid r :
  flight_reservations db !! rid = Some r →
  status r ≠ pending →
  flight_reservations (reservationCleanupTick now db) !! rid = Some r.
Proof.
  intros Hr Hst. rewrite cleanup_reservations, lookup_fmap, Hr. simpl.
  unfold expire_if_stale. now rewrite not_pending_not_stale.
Qed.

(** X4: a reservation that is confirmed, cancelled or expired never
    becomes pending again, and no request changes it.  In any schedule
    its row stays as it is or has its status rewritten to expired, which
    only a cleanup loop does, to a row its [SELECT] matched earlier; in a
    serial schedule the row stays exactly as it is. *)
Theorem resolved_rows_stay_resolved
    (ops : list Op) (s : Service) (rid : string) (r : Reservation) :
  flight_reservations (database s) !! rid = Some r →
  status r ≠ pending →
  (flight_reservations (database (run ops s)) !! rid = Some r
   ∨ flight_reservations (database (run ops s)) !! rid = Some (set_status expired r))
  ∧ (serial ops = true → in_flight s = [] →
     flight_reservations (database (run ops s)) !! rid = Some r).
Proof.
  intros Hr Hst. split.
  - apply (run_invariant
             (λ db, flight_reservations db !! rid = Some r
                    ∨ flight_reservations db !! rid = Some (set_status expired r))
             (λ _, True)); try (now left); try (now apply Forall_true).
    + intros f b q u t db _ [H|H]; [left | right]; now apply reserve_keeps_rows.
    + intros rid' db [H|H]; [left | right]; now apply confirm_keeps_resolved.
    + intros rid' db [H|H]; [left | right]; now apply cancel_keeps_resolved.
    + intros selected db [H|H]; rewrite loop_reservations, H;
        destruct (decide _); simpl; auto.
  - intros Hser Hidle. destruct s as [db fl]. simpl in *. subst fl.
    apply (serial_invariant (λ db, flight_reservations db !! rid = Some r) (λ _, True));
      try done; try (now apply Forall_true).
    + intros f b q u t db' _ H. now apply reserve_keeps_rows.
    + intros rid' db' H. now apply confirm_keeps_resolved.
    + intros rid' db' H. now apply cancel_keeps_resolved.
    + intros now db' H. now apply pass_keeps_resolved.
Qed.

Lemma resolved_rows_stay_resolved_witness :
  flight_reservations (database (run busy_day (idle cancelled_row_db))) !! "rA"
  = Some (mkReservation "U" (JsStr "A") 1 cancelled (Some 900000)).
Proof.
  apply (resolved_rows_stay_resolved busy_day (idle cancelled_row_db) "rA");
    [reflexivity | vm_compute; discriminate | reflexivity | reflexivity].
Defined.

Lemma later_state_refl r : later_state_of r r.
Proof. unfold later_state_of. tauto. Qed.

Lemma later_state_trans r1 r2 r3 :
  later_state_of r1 r2 → later_state_of r2 r3 → later_state_of r1 r3.
Proof.
  unfold later_state_of.
  intros (Hf1 & Hb1 & Hq1 & Hs1 & He1) (Hf2 & Hb2 & Hq2 & Hs2 & He2).
  split; [congruence|]. split; [congruence|]. split; [congruence|]. split.
  - destruct Hs1 as [Hs1|[Hp Hn]], Hs2 as [Hs2|[Hp' Hn']].
    + left. congruence.
    + right. split; congruence.
    + right. split; congruence.
    + contradiction.
  - destruct He1 as [He1|He1], He2 as [He2|He2].
    + left. congruence.
    + now right.
    + right. congruence.
    + now right.
Qed.

Lemma later_or_expired_weaken r r' : later_state_of r r' → later_or_expired r r'.
Proof. unfold later_state_of, later_or_expired. tauto. Qed.

Lemma later_or_expired_trans r1 r2 r3 :
  later_or_expired r1 r2 → later_or_expired r2 r3 → later_or_expired r1 r3.
Proof.
  unfold later_or_expired.
  intros (Hf1 & Hb1 & Hq1 & Hs1 & He1) (Hf2 & Hb2 & Hq2 & Hs2 & He2).
  split; [congruence|]. split; [congruence|]. split; [congruence|]. split.
  - destruct Hs2 as [Hs2|[[Hp' Hn']|Hx]].
    + rewrite Hs2. exact Hs1.
    + destruct Hs1 as [Hs1|[[Hp Hn]|Hx]].
      * right. left. split; congruence.
      * contradiction.
      * congruence.
    + now right; right.
  - destruct He1 as [He1|He1], He2 as [He2|He2].
    + left. congruence.
    + now right.
    + right. congruence.
    + now right.
Qed.

Lemma reserve_moves_forward f b q u t db rid r :
  flight_reservations db !! rid = Some r →
  ∃ r', flight_reservations (createReservation f b q u t db).2 !! rid = Some r'
        ∧ later_state_of r r'.
Proof.
  intros Hr. exists r. split; [now apply reserve_keeps_rows | apply later_state_refl].
Qed.

Lemma confirm_moves_forward rid' db rid r :
  flight_reservations db !! rid = Some r →
  ∃ r', flight_reservations (confirmReservation rid' db).2 !! rid = Some r'
        ∧ later_state_of r r'.
Proof.
  intros Hr. destruct (lookup_pending rid' db) as [r'|] eqn:Hp.
  2: { rewrite (confirmReservation_not_pending _ _ Hp).
       exists r. split; [done | apply later_state_refl]. }
  rewrite (confirmReservation_pending _ _ _ Hp). simpl.
  apply lookup_pending_Some in Hp as [Hr' Hp'].
  destruct (decide (rid' = rid)) as [->|Hne].
  - assert (r' = r) by congruence. subst r'.
    eexists. split; [apply lookup_insert_eq|].
    unfold later_state_of. simpl. repeat split; try done.
    all: first [ now left | now right | right; split; [done | discriminate] ].
  - exists r. split; [now rewrite lookup_insert_ne | apply later_state_refl].
Qed.

Lemma cancel_moves_forward rid' db rid r :
  flight_reservations db !! rid = Some r →
  ∃ r', flight_reservations (cancelReservation rid' db).2 !! rid = Some r'
        ∧ later_state_of r r'.
Proof.
  intros Hr. destruct (lookup_pending rid' db) as [r'|] eqn:Hp.
  2: { rewrite (cancelReservation_not_pending _ _ Hp).
       exists r. split; [done | apply later_state_refl]. }
  rewrite (cancelReservation_pending _ _ _ Hp). simpl.
  apply lookup_pending_Some in Hp as [Hr' Hp'].
  destruct (decide (rid' = rid)) as [->|Hne].
  - assert (r' = r) by congruence. subst r'.
    eexists. split; [apply lookup_insert_eq|].
    unfold later_state_of. simpl. repeat split; try done.
    all: first [ now left | now right | right; split; [done | discriminate] ].
  - exists r. split; [now rewrite lookup_insert_ne | apply later_state_refl].
Qed.

Lemma pass_moves_forward now db rid r :
  flight_reservations db !! rid = Some r →
  ∃ r', flight_reservations (reservationCleanupTick now db) !! rid = Some r'
        ∧ later_state_of r r'.
Proof.
  intros Hr. rewrite cleanup_reservations, lookup_fmap, Hr. simpl.
  eexists. split; [done|]. unfold expire_if_stale.
  destruct (is_stale now r) eqn:Hs; [|apply later_state_refl].
  apply is_stale_true in Hs as [Hp _].
  unfold later_state_of. simpl. repeat split; try done.
  all: first [ now left | now right | right; split; [done | discriminate] ].
Qed.

Lemma loop_moves_forward selected db rid r :
  flight_reservations db !! rid = Some r →
  ∃ r', flight_reservations (run_loop selected db) !! rid = Some r'
        ∧ later_or_expired r r'.
Proof.
  intros Hr. rewrite loop_reservations, Hr. destruct (decide _); simpl.
  - eexists. split; [done|]. unfold later_or_expired. simpl.
    repeat split; try done; [now right; right | now left].
  - exists r. split; [done|]. apply later_or_expired_weaken, later_state_refl.
Qed.

(** X5: no schedule deletes a reservation or rewrites what Reserve stored
    in it.  After any schedule the row is still there with the same
    flight, booking id and seat count; its expiry time is the old one or
    [NULL]; its status is the old one, or the row has left pending, or a
    cleanup loop has rewritten it to expired; it is never pending unless
    it was.  In a serial schedule the status changes only if it was
    pending. *)
Theorem rows_only_move_forward
    (ops : list Op) (s : Service) (rid : string) (r : Reservation) :
  flight_reservations (database s) !! rid = Some r →
  (∃ r', flight_reservations (database (run ops s)) !! rid = Some r'
         ∧ flight_id r' = flight_id r
         ∧ booking_id r' = booking_id r
         ∧ seats r' = seats r
         ∧ (status r' = status r ∨ status r = pending ∧ status r' ≠ pending
            ∨ status r' = expired)
         ∧ (expires_at r' = expires_at r ∨ expires_at r' = None))
  ∧ (serial ops = true → in_flight s = [] →
     ∃ r', flight_reservations (database (run ops s)) !! rid = Some r'
           ∧ (status r' = status r ∨ status r = pending ∧ status r' ≠ pending)).
Proof.
  intros Hr. split.
  - change (∃ r', flight_reservations (database (run ops s)) !! rid = Some r'
                  ∧ later_or_expired r r').
    apply (run_invariant
             (λ db, ∃ r', flight_reservations db !! rid = Some r' ∧ later_or_expired r r')
             (λ _, True)); try (now apply Forall_true).
    + intros f b q u t db _ (x & Hx & Hrel).
      destruct (reserve_moves_forward f b q u t db rid x Hx) as (x' & Hx' & Hrel').
      exists x'. split; [done|].
      exact (later_or_expired_trans r x x' Hrel (later_or_expired_weaken x x' Hrel')).
    + intros rid' db (x & Hx & Hrel).
      destruct (confirm_moves_forward rid' db rid x Hx) as (x' & Hx' & Hrel').
      exists x'. split; [done|].
      exact (later_or_expired_trans r x x' Hrel (later_or_expired_weaken x x' Hrel')).
    + intros rid' db (x & Hx & Hrel).
      destruct (cancel_moves_forward rid' db rid x Hx) as (x' & Hx' & Hrel').
      exists x'. split; [done|].
      exact (later_or_expired_trans r x x' Hrel (later_or_expired_weaken x x' Hrel')).
    + intros selected db (x & Hx & Hrel).
      destruct (loop_moves_forward selected db rid x Hx) as (x' & Hx' & Hrel').
      exists x'. split; [done|]. exact (later_or_expired_trans r x x' Hrel Hrel').
    + exists r. split; [done|]. apply later_or_expired_weaken, later_state_refl.
  - intros Hser Hidle. destruct s as [db fl]. simpl in *. subst fl.
    destruct (serial_invariant
                (λ db, ∃ r', flight_reservations db !! rid = Some r' ∧ later_state_of r r')
                (λ _, True)) with (ops := ops) (db := db)
      as [(r' & Hr' & Hrel) _]; try done; try (now apply Forall_true).
    + intros f b q u t db' _ (x & Hx & Hrel).
      destruct (reserve_moves_forward f b q u t db' rid x Hx) as (x' & Hx' & Hrel').
      exists x'. split; [done|]. exact (later_state_trans r x x' Hrel Hrel').
    + intros rid' db' (x & Hx & Hrel).
      destruct (confirm_moves_forward rid' db' rid x Hx) as (x' & Hx' & Hrel').
      exists x'. split; [done|]. exact (later_state_trans r x x' Hrel Hrel').
    + intros rid' db' (x & Hx & Hrel).
      destruct (cancel_moves_forward rid' db' rid x Hx) as (x' & Hx' & Hrel').
      exists x'. split; [done|]. exact (later_state_trans r x x' Hrel Hrel').
    + intros now db' (x & Hx & Hrel).
      destruct (pass_moves_forward now db' rid x Hx) as (x' & Hx' & Hrel').
      exists x'. split; [done|]. exact (later_state_trans r x x' Hrel Hrel').
    + exists r. split; [done | apply later_state_refl].
    + exists r'. split; [done|]. apply Hrel.
Qed.

Lemma rows_only_move_forward_witness :
  ∃ r', flight_reservations (database (run raced_cancel (idle one_flight_db))) !! "rA"
        = Some r'
        ∧ flight_id r' = "U"
        ∧ booking_id r' = JsStr "A"
        ∧ seats r' = 2
        ∧ (status r' = pending ∨ pending = pending ∧ status r' ≠ pending
           ∨ status r' = expired)
        ∧ (expires_at r' = Some 900000 ∨ expires_at r' = None).
Proof.
  apply (rows_only_move_forward (drop 1 raced_cancel)
           (run (take 1 raced_cancel) (idle one_flight_db)) "rA"
           (mkReservation "U" (JsStr "A") 2 pending (Some 900000))).
  reflexivity.
Defined.

(** ** Seats are neither lost nor made in a serial schedule *)

Lemma reserve_conserves C f f' b q u t db :
  seats_conserved C f db → seats_conserved C f (createReservation f' b q u t db).2.
Proof.
  intros (a & Ha & Hsum). unfold seats_conserved, held_seats in *.
  destruct (createReservation_outcome f' b q u t db)
    as [-> | (a' & Hf' & _ & Hfresh & ->)]; [now exists a|].
  simpl. rewrite table_sum_insert by done. unfold held_on at 1. simpl.
  destruct (decide (f' = f)) as [->|Hne].
  - rewrite lookup_insert_eq, bool_decide_eq_true_2 by done.
    assert (a' = a) by congruence. subst a'.
    eexists. split; [done|]. lia.
  - rewrite lookup_insert_ne, bool_decide_eq_false_2 by done.
    exists a. split; [done|]. lia.
Qed.

Lemma confirm_conserves C f rid db :
  seats_conserved C f db → seats_conserved C f (confirmReservation rid db).2.
Proof.
  intros (a & Ha & Hsum). unfold seats_conserved, held_seats in *.
  destruct (lookup_pending rid db) as [r|] eqn:Hp.
  2: { rewrite (confirmReservation_not_pending _ _ Hp). now exists a. }
  rewrite (confirmReservation_pending _ _ _ Hp). simpl.
  apply lookup_pending_Some in Hp as [Hr Hst].
  exists a. rewrite (table_sum_overwrite _ _ _ r) by done.
  rewrite held_on_status_change; [split; [done|]; lia | | done].
  unfold holds_seats. now rewrite Hst.
Qed.

Lemma cancel_conserves C f rid db :
  seats_conserved C f db → seats_conserved C f (cancelReservation rid db).2.
Proof.
  intros (a & Ha & Hsum). unfold seats_conserved, held_seats in *.
  destruct (lookup_pending rid db) as [r|] eqn:Hp.
  2: { rewrite (cancelReservation_not_pending _ _ Hp). now exists a. }
  rewrite (cancelReservation_pending _ _ _ Hp). simpl.
  apply lookup_pending_Some in Hp as [Hr Hst].
  rewrite (table_sum_overwrite _ _ _ r) by done.
  unfold held_on at 2 3. simpl. unfold holds_seats at 1. rewrite Hst. simpl.
  rewrite lookup_alter.
  destruct (decide (flight_id r = f)) as [Hf|Hf].
  - rewrite bool_decide_eq_true_2 by done. rewrite Hf, Ha. simpl.
    eexists. split; [done|]. lia.
  - rewrite bool_decide_eq_false_2 by done.
    exists a. split; [done|]. lia.
Qed.

Lemma pass_conserves C f now db :
  seats_conserved C f db → seats_conserved C f (reservationCleanupTick now db).
Proof.
  intros (a & Ha & Hsum). unfold seats_conserved, held_seats in *.
  exists (a + stale_seats now f db). rewrite cleanup_flights, Ha.
  split; [done|].
  rewrite cleanup_reservations, table_sum_fmap.
  rewrite (table_sum_ext _ (λ r, held_on f r - stale_on now f r))
    by (intros; apply held_after_cleanup).
  rewrite table_sum_sub. unfold stale_seats. lia.
Qed.

Lemma cancel_keeps_missing_flights rid db f :
  flights db !! f = None → flights (cancelReservation rid db).2 !! f = None.
Proof.
  intros Hf. destruct (lookup_pending rid db) as [r|] eqn:Hp.
  - rewrite (cancelReservation_pending _ _ _ Hp). simpl.
    rewrite lookup_alter. case_decide; [subst; now rewrite Hf | done].
  - now rewrite (cancelReservation_not_pending _ _ Hp).
Qed.

(** X6: in a serial schedule seats are conserved, with no condition on
    the quantities: for a flight in the table, [available_seats] plus the
    seats of its pending and confirmed reservations is the same after the
    schedule as before it, so a cancelled or expired hold is paid back
    once and a confirmed one never.  In any schedule, serial or not, no
    step adds a flight to the table. *)
Theorem seats_are_conserved (ops : list Op) (f : string) :
  (∀ s, flights (database s) !! f = None →
        flights (database (run ops s)) !! f = None)
  ∧ (serial ops = true →
     ∀ db a, flights db !! f = Some a →
       ∃ a', flights (database (run ops (idle db))) !! f = Some a'
             ∧ a' + held_seats f (database (run ops (idle db)))
               = a + held_seats f db).
Proof.
  split.
  - intros s Hf.
    apply (run_invariant (λ db, flights db !! f = None) (λ _, True));
      try done; try (now apply Forall_true).
    + intros f' b q u t db _ H.
      destruct (createReservation_outcome f' b q u t db)
        as [-> | (a & Hf' & _ & _ & ->)]; [done|].
      simpl. rewrite lookup_insert_ne; [done | congruence].
    + intros rid db H. destruct (lookup_pending rid db) as [r|] eqn:Hp.
      * now rewrite (confirmReservation_pending _ _ _ Hp).
      * now rewrite (confirmReservation_not_pending _ _ Hp).
    + intros rid db H. now apply cancel_keeps_missing_flights.
    + intros selected db H. now rewrite loop_flights, H.
  - intros Hser db a Ha.
    destruct (serial_invariant (seats_conserved (a + held_seats f db) f) (λ _, True))
      with (ops := ops) (db := db) as [(a' & Ha' & Hsum) _];
      try done; try (now apply Forall_true).
    + intros f' b q u t db' _ H. now apply reserve_conserves.
    + intros rid db' H. now apply confirm_conserves.
    + intros rid db' H. now apply cancel_conserves.
    + intros now db' H. now apply pass_conserves.
    + now exists a.
    + now exists a'.
Qed.

Lemma seats_are_conserved_witness :
  (∃ a', flights (database (run odd_requests (idle one_flight_db))) !! "U" = Some a'
         ∧ a' + held_seats "U" (database (run odd_requests (idle one_flight_db)))
           = 2 + held_seats "U" one_flight_db)
  ∧ flights (database (run raced_cancel (idle one_flight_db))) !! "V" = None.
Proof.
  destruct (seats_are_conserved odd_requests "U") as [_ Hkept].
  destruct (seats_are_conserved raced_cancel "V") as [Hnone _].
  split; [apply Hkept | apply Hnone]; reflexivity.
Defined.

(** ** The cleanup loop on rows selected earlier *)

(** X7: the cleanup loop acts on the rows it was given and does not read
    a row's status again.  When the rows were selected from [seen] and
    the loop runs on [db], every selected id that is in [db] ends
    expired, whatever its status in [db] is, no other row changes, and
    each flight is credited with the seats the selected rows had in
    [seen]. *)
Theorem cleanup_loop_trusts_its_selection (now : Z) (seen db : Db) :
  (∀ rid,
     flight_reservations (cleanup_on_snapshot now seen db) !! rid
     = match flight_reservations seen !! rid with
       | Some r0 => if is_stale now r0
                    then set_status expired <$> flight_reservations db !! rid
                    else flight_reservations db !! rid
       | None => flight_reservations db !! rid
       end)
  ∧ (∀ f, flights (cleanup_on_snapshot now seen db) !! f
          = (λ a, a + stale_seats now f seen) <$> flights db !! f).
Proof.
  unfold cleanup_on_snapshot. rewrite cleanup_loop_rows. simpl. split.
  - intros rid. rewrite expire_rows_lookup. unfold stale_rows.
    destruct (decide _) as [Hj|Hj].
    + apply stale_selected in Hj as [r0 [-> ->]]. done.
    + destruct (flight_reservations seen !! rid) as [r0|] eqn:Hr0; [|done].
      destruct (is_stale now r0) eqn:Hs; [|done].
      exfalso. apply Hj, stale_selected. eauto.
  - intros f. rewrite credit_rows_lookup. unfold stale_rows, stale_seats.
    now rewrite list_credit_stale.
Qed.

(** * Properties of the flight search *)

(** ** The filter builders *)

(** X8: the stops filter puts every flight in exactly one of its three
    classes: the three counts add up to the number of flights, and when
    no flight is longer than 300 minutes (what a [directOnly] search asks
    the database for) all of them count as direct. *)
Theorem stops_filter_partitions (rows : list FlightRow) :
  (direct (buildStopsFilter rows) + oneStop (buildStopsFilter rows)
   + multiStop (buildStopsFilter rows) = length rows)%nat
  ∧ (Forall (λ f, duration_minutes f ≤ 300) rows →
     direct (buildStopsFilter rows) = length rows
     ∧ oneStop (buildStopsFilter rows) = 0%nat
     ∧ multiStop (buildStopsFilter rows) = 0%nat).
Proof.
  assert ((direct (buildStopsFilter rows) + oneStop (buildStopsFilter rows)
           + multiStop (buildStopsFilter rows) = length rows)%nat) as Hsum.
  { unfold buildStopsFilter. simpl.
    induction rows as [|f rows IH]; [done|].
    rewrite !filter_cons.
    destruct (decide (duration_minutes f ≤ 300));
      destruct (decide (300 < duration_minutes f ∧ duration_minutes f ≤ 600));
      destruct (decide (600 < duration_minutes f)); simpl; lia. }
  split; [exact Hsum|]. intros Hall.
  assert (direct (buildStopsFilter rows) = length rows) as Hd.
  { clear Hsum. unfold buildStopsFilter. simpl.
    induction Hall as [|f rows Hf _ IH]; [done|].
    rewrite filter_cons_True by exact Hf. simpl. now rewrite IH. }
  lia.
Qed.

Lemma stops_filter_partitions_witness :
  direct (buildStopsFilter [mkFlightRow "Delta" 101; mkFlightRow "United" 300]) = 2%nat
  ∧ oneStop (buildStopsFilter [mkFlightRow "Delta" 101; mkFlightRow "United" 300]) = 0%nat
  ∧ multiStop (buildStopsFilter [mkFlightRow "Delta" 101; mkFlightRow "United" 300]) = 0%nat.
Proof.
  apply (stops_filter_partitions [mkFlightRow "Delta" 101; mkFlightRow "United" 300]).
  repeat constructor; simpl; lia.
Defined.

Lemma Math_min_spec x xs :
  (Math_min x xs = x ∨ Math_min x xs ∈ xs)
  ∧ Math_min x xs ≤ x ∧ ∀ y, y ∈ xs → Math_min x xs ≤ y.
Proof.
  unfold Math_min. revert x. induction xs as [|z xs IH]; intros x; simpl.
  - split; [now left|]. split; [lia|]. intros y Hy. now apply elem_of_nil in Hy.
  - destruct (IH (Z.min x z)) as (Hin & Hle & Hall). split; [|split].
    + destruct Hin as [->|Hin].
      * destruct (Z.min_spec x z) as [[_ ->]|[_ ->]]; [now left | right; left].
      * right. now right.
    + lia.
    + intros y [->|Hy]%elem_of_cons; [lia | now apply Hall].
Qed.

Lemma Math_max_spec x xs :
  (Math_max x xs = x ∨ Math_max x xs ∈ xs)
  ∧ x ≤ Math_max x xs ∧ ∀ y, y ∈ xs → y ≤ Math_max x xs.
Proof.
  unfold Math_max. revert x. induction xs as [|z xs IH]; intros x; simpl.
  - split; [now left|]. split; [lia|]. intros y Hy. now apply elem_of_nil in Hy.
  - destruct (IH (Z.max x z)) as (Hin & Hle & Hall). split; [|split].
    + destruct Hin as [->|Hin].
      * destruct (Z.max_spec x z) as [[_ ->]|[_ ->]]; [right; left | now left].
      * right. now right.
    + lia.
    + intros y [->|Hy]%elem_of_cons; [lia | now apply Hall].
Qed.

Lemma foldl_add_shift (a : Z) (l : list Z) : foldl Z.add a l = a + foldl Z.add 0 l.
Proof.
  revert a. induction l as [|x l IH]; intros a; simpl; [lia|].
  rewrite (IH (a + x)), (IH (0 + x)). lia.
Qed.

Lemma sum_between (lo hi : Z) (l : list Z) :
  (∀ y, y ∈ l → lo ≤ y ≤ hi) →
  Z.of_nat (length l) * lo ≤ foldl Z.add 0 l ≤ Z.of_nat (length l) * hi.
Proof.
  induction l as [|x l IH]; intros Hall; [simpl; lia|].
  simpl foldl. rewrite foldl_add_shift.
  assert (lo ≤ x ≤ hi) by (apply Hall; left).
  assert (Z.of_nat (length l) * lo ≤ foldl Z.add 0 l ≤ Z.of_nat (length l) * hi)
    by (apply IH; intros y Hy; apply Hall; now right).
  rewrite length_cons. lia.
Qed.

Lemma Math_round_ratio_between (lo hi s n avg : Z) :
  Math_round_ratio s n = Some avg → n * lo ≤ s ≤ n * hi → lo ≤ avg ≤ hi.
Proof.
  unfold Math_round_ratio. intros Havg [Hlo Hhi].
  destruct (0 <? n) eqn:Hn; [|done]. apply Z.ltb_lt in Hn.
  destruct (_ <? _); [|done]. simpl in Havg. injection Havg as <-. split.
  - apply Z.div_le_lower_bound; lia.
  - apply Z.lt_succ_r, Z.div_lt_upper_bound; lia.
Qed.

Lemma js_sum_from (a : option Z) (l : list Z) (s : Z) :
  foldl (λ acc x, acc ≫= λ a, js_add a x) a l = Some s →
  ∃ a', a = Some a' ∧ s = foldl Z.add a' l.
Proof.
  revert a. induction l as [|x l IH]; intros a; simpl.
  - intros ->. now exists s.
  - intros H. apply IH in H as (b & Hb & ->).
    destruct a as [a'|]; [|done]. simpl in Hb. exists a'. split; [done|].
    unfold js_add in Hb. destruct (_ && _); [|done]. now injection Hb as <-.
Qed.

Lemma js_sum_exact (l : list Z) (s : Z) : js_sum l = Some s → s = foldl Z.add 0 l.
Proof. intros H. apply js_sum_from in H as (a & Ha & ->). now injection Ha as <-. Qed.

Lemma js_sum_total (B a : Z) (l : list Z) :
  Forall (λ d, Z.abs d ≤ B) l →
  Z.abs a + Z.of_nat (length l) * B ≤ MAX_SAFE_INTEGER →
  foldl (λ acc x, acc ≫= λ a, js_add a x) (Some a) l = Some (foldl Z.add a l).
Proof.
  revert a. induction l as [|x l IH]; intros a Hall Hle; [done|].
  apply Forall_cons in Hall as [Hx Hall]. rewrite length_cons in Hle. simpl.
  assert (js_add a x = Some (a + x)) as ->.
  { assert (0 ≤ Z.of_nat (length l) * B) by nia.
    unfold js_add, safe_integer.
    rewrite (proj2 (Z.leb_le (Z.abs a) _)) by lia.
    rewrite (proj2 (Z.leb_le (Z.abs x) _)) by lia.
    rewrite (proj2 (Z.leb_le (Z.abs (a + x)) _)) by lia. done. }
  apply IH; [done | lia].
Qed.

(** X9: the duration filter of an empty result is all zeros.  Of a result
    with flights, whenever the sum and the average stay in the range where
    double arithmetic is exact, [min] and [max] are durations of flights
    in it, every flight's duration lies between them, and the rounded
    average does too.  Up to [2^20] flights with durations of at most
    [2^31] minutes in absolute value are within that range. *)
Theorem duration_range_bounds (rows : list FlightRow) :
  (rows = [] → buildDurationRange rows = Some (mkRangeFilter 0 0 0))
  ∧ (∀ r, rows ≠ [] → buildDurationRange rows = Some r →
     range_min r ∈ duration_minutes <$> rows
     ∧ range_max r ∈ duration_minutes <$> rows
     ∧ (∀ f, f ∈ rows → range_min r ≤ duration_minutes f ≤ range_max r)
     ∧ range_min r ≤ range_avg r ≤ range_max r)
  ∧ (Z.of_nat (length rows) ≤ 2 ^ 20 →
     Forall (λ f, Z.abs (duration_minutes f) ≤ 2 ^ 31) rows →
     is_Some (buildDurationRange rows)).
Proof.
  split; [now intros ->|]. split.
  - intros r Hne. unfold buildDurationRange.
    assert (∀ f, f ∈ rows → duration_minutes f ∈ duration_minutes <$> rows) as Hmap
      by (intros f Hf; now apply list_elem_of_fmap_2).
    destruct (duration_minutes <$> rows) as [|d ds] eqn:Hds.
    { destruct rows; [done | discriminate]. }
    destruct (js_sum (d :: ds)) as [sum|] eqn:Hsum; [|done]. simpl.
    destruct (Math_round_ratio sum _) as [avg|] eqn:Havg; [|done]. simpl.
    intros [= <-]. simpl.
    apply js_sum_exact in Hsum.
    destruct (Math_min_spec d ds) as (Hmin_in & Hmin_d & Hmin_all).
    destruct (Math_max_spec d ds) as (Hmax_in & Hmax_d & Hmax_all).
    assert (∀ y, y ∈ d :: ds → Math_min d ds ≤ y ≤ Math_max d ds) as Hall.
    { intros y [->|Hy]%elem_of_cons; [lia|].
      split; [now apply Hmin_all | now apply Hmax_all]. }
    split; [|split; [|split]].
    + destruct Hmin_in as [->|Hin]; [left | now right].
    + destruct Hmax_in as [->|Hin]; [left | now right].
    + intros f Hf. now apply Hall, Hmap.
    + apply (Math_round_ratio_between _ _ _ _ _ Havg). rewrite Hsum.
      now apply (sum_between (Math_min d ds) (Math_max d ds) (d :: ds)).
  - intros Hlen Hall. unfold buildDurationRange.
    assert (Forall (λ d, Z.abs d ≤ 2 ^ 31) (duration_minutes <$> rows)) as Hds
      by now apply Forall_fmap.
    assert (length (duration_minutes <$> rows) = length rows) as Hl
      by apply length_fmap.
    destruct (duration_minutes <$> rows) as [|d ds] eqn:E; [done|].
    remember (d :: ds) as l eqn:El.
    assert (0 < Z.of_nat (length l)) as Hpos by (subst l; simpl; lia).
    assert (js_sum l = Some (foldl Z.add 0 l)) as Hsum.
    { apply (js_sum_total (2 ^ 31)); [done|].
      rewrite Hl. unfold MAX_SAFE_INTEGER. simpl Z.abs. nia. }
    assert (Z.abs (foldl Z.add 0 l) ≤ Z.of_nat (length l) * 2 ^ 31) as Hs.
    { assert (Z.of_nat (length l) * (- 2 ^ 31) ≤ foldl Z.add 0 l
              ≤ Z.of_nat (length l) * 2 ^ 31); [|lia].
      apply sum_between. intros y Hy.
      rewrite Forall_forall in Hds. specialize (Hds y Hy). simpl in Hds. lia. }
    assert (is_Some (Math_round_ratio (foldl Z.add 0 l) (Z.of_nat (length l))))
      as [avg Havg].
    { unfold Math_round_ratio.
      rewrite (proj2 (Z.ltb_lt 0 _)) by done.
      rewrite (proj2 (Z.ltb_lt _ (2 ^ 53))) by nia. done. }
    rewrite Hsum. simpl. rewrite Havg. simpl. done.
Qed.

Lemma duration_range_bounds_witness :
  (∀ r, buildDurationRange [mkFlightRow "Delta" 101; mkFlightRow "United" 120] = Some r →
        range_min r ≤ range_avg r ≤ range_max r)
  ∧ is_Some (buildDurationRange [mkFlightRow "Delta" 101; mkFlightRow "United" 120]).
Proof.
  destruct (duration_range_bounds [mkFlightRow "Delta" 101; mkFlightRow "United" 120])
    as (_ & Hin & Htotal).
  split.
  - intros r Hr. now apply Hin.
  - apply Htotal; [simpl; lia | repeat constructor; simpl; lia].
Defined.

Section AirlineFilterProperties.
Variable inherited : string → bool.

Lemma flights_of_snoc k rows f :
  flights_of k (rows ++ [f])
  = (flights_of k rows + if bool_decide (airline f = k) then 1 else 0)%nat.
Proof.
  unfold flights_of. rewrite filter_app, List.length_app. f_equal.
  rewrite filter_cons, filter_nil. case_bool_decide.
  - now rewrite decide_True.
  - now rewrite decide_False.
Qed.

Lemma airline_table_snoc rows f :
  airline_table inherited (rows ++ [f])
  = count_flight inherited (airline_table inherited rows) f.
Proof. unfold airline_table. apply foldl_snoc. Qed.

Lemma airline_table_lookup rows k :
  airline_table inherited rows !! k
  = if inherited k || bool_decide (flights_of k rows = 0%nat) then None
    else Some (mkAirlineFilter (airline_code k) k (Z.of_nat (flights_of k rows))).
Proof.
  induction rows as [|f rows IH] using rev_ind.
  - unfold airline_table. simpl. rewrite lookup_empty. now rewrite orb_true_r.
  - rewrite airline_table_snoc, flights_of_snoc. unfold count_flight.
    destruct (decide (airline f = k)) as [Hk|Hne].
    + rewrite (bool_decide_eq_true_2 (airline f = k)) by done. rewrite Hk.
      rewrite lookup_alter_eq.
      rewrite (bool_decide_eq_false_2 (_ = 0%nat)) by lia.
      rewrite orb_false_r.
      destruct (inherited k) eqn:Hi.
      { rewrite IH. simpl. now rewrite IH. }
      simpl in IH. case_bool_decide as H0.
      * rewrite IH. rewrite lookup_insert_eq. simpl. unfold bump. simpl.
        now rewrite H0.
      * rewrite IH. rewrite IH. simpl. unfold bump. simpl.
        do 2 f_equal. lia.
    + rewrite (bool_decide_eq_false_2 (airline f = k)) by done. rewrite Nat.add_0_r.
      rewrite lookup_alter_ne by done.
      destruct (airline_table inherited rows !! airline f); [done|].
      destruct (inherited (airline f)); [done|].
      now rewrite lookup_insert_ne.
Qed.

Lemma airline_table_sum rows :
  table_sum count (airline_table inherited rows)
  = Z.of_nat (length (filter (λ f, inherited (airline f) = false) rows)).
Proof.
  induction rows as [|f rows IH] using rev_ind.
  - unfold airline_table. simpl. apply table_sum_empty.
  - rewrite airline_table_snoc, filter_app, List.length_app, Nat2Z.inj_add, <- IH.
    rewrite filter_cons, filter_nil. unfold count_flight.
    pose proof (airline_table_lookup rows (airline f)) as Hl.
    destruct (inherited (airline f)) eqn:Hi; simpl in Hl.
    { rewrite Hl. rewrite decide_False by discriminate. simpl.
      rewrite alter_id' by done. lia. }
    rewrite decide_True by done. simpl.
    destruct (airline_table inherited rows !! airline f) as [e|] eqn:He.
    + erewrite alter_alt_Some by done.
      rewrite (table_sum_overwrite _ _ _ e) by done. unfold bump. simpl. lia.
    + rewrite alter_insert_eq. rewrite table_sum_insert by done.
      unfold bump. simpl. lia.
Qed.

Lemma total_count_values (m : gmap string AirlineFilter) :
  total_count (map_to_list m).*2 = table_sum count m.
Proof.
  unfold total_count, table_sum. rewrite map_fold_foldr.
  induction (map_to_list m) as [|[k e] l IH]; [done|].
  simpl. f_equal. exact IH.
Qed.

Lemma names_are_keys (l : list (string * AirlineFilter)) :
  (∀ k e, (k, e) ∈ l → name e = k) → name <$> l.*2 = l.*1.
Proof.
  induction l as [|[k e] l IH]; intros Hall; [done|].
  simpl. rewrite (Hall k e) by left. f_equal.
  apply IH. intros k' e' Hin. apply Hall. now right.
Qed.

(** X10: the airline filter has one entry for each airline of the result
    whose name is not an inherited property name, with the airline's
    name, its code (the first two characters of the name in upper case)
    and the number of its flights, and no other entry; the counts add up
    to the number of flights with such names.  Flights whose airline is
    named like an inherited property are left out. *)
Theorem airline_filters_count_flights (rows : list FlightRow) :
  (∀ e, e ∈ buildAirlineFilters inherited rows ↔
        ∃ k, inherited k = false
             ∧ (0 < flights_of k rows)%nat
             ∧ e = mkAirlineFilter (airline_code k) k (Z.of_nat (flights_of k rows)))
  ∧ NoDup (name <$> buildAirlineFilters inherited rows)
  ∧ total_count (buildAirlineFilters inherited rows)
    = Z.of_nat (length (filter (λ f, inherited (airline f) = false) rows)).
Proof.
  unfold buildAirlineFilters. split; [|split].
  - intros e. rewrite list_elem_of_fmap. split.
    + intros [[k e'] [-> Hin]]. apply elem_of_map_to_list in Hin.
      rewrite airline_table_lookup in Hin. exists k.
      destruct (inherited k); [discriminate|]. simpl in Hin.
      case_bool_decide; [discriminate|]. injection Hin as <-.
      split; [done|]. split; [lia | done].
    + intros (k & Hi & Hpos & ->).
      exists (k, mkAirlineFilter (airline_code k) k (Z.of_nat (flights_of k rows))).
      split; [done|]. apply elem_of_map_to_list.
      rewrite airline_table_lookup, Hi. simpl.
      now rewrite bool_decide_eq_false_2 by lia.
  - rewrite names_are_keys; [apply NoDup_fst_map_to_list|].
    intros k e Hin. apply elem_of_map_to_list in Hin.
    rewrite airline_table_lookup in Hin.
    destruct (_ || _); [discriminate|]. now injection Hin as <-.
  - rewrite total_count_values. apply airline_table_sum.
Qed.

End AirlineFilterProperties.

Lemma airline_filters_count_flights_witness :
  buildAirlineFilters node_inherited three_flights
  = [mkAirlineFilter (Some "DE") "Delta" 2]
  ∧ total_count (buildAirlineFilters node_inherited three_flights)
    = Z.of_nat (length (filter (λ f, node_inherited (airline f) = false) three_flights)).
Proof.
  split; [reflexivity|].
  apply (airline_filters_count_flights node_inherited three_flights).
Defined.

(** ** The search queries *)

Lemma count_char_app c s1 s2 :
  count_char c (s1 +:+ s2) = (count_char c s1 + count_char c s2)%nat.
Proof. induction s1 as [|a s1 IH]; simpl; [done | rewrite IH; lia]. Qed.

Lemma count_placeholders {A : Type} (l : list A) :
  count_char placeholder (placeholders l) = length l.
Proof.
  unfold placeholders. induction l as [|x l IH]; [done|].
  destruct l as [|y l]; [done|].
  change (count_char placeholder ("?" +:+ ("," +:+ String.concat "," ((λ _, "?") <$> y :: l)))
          = S (length (y :: l))).
  rewrite !count_char_app, IH. done.
Qed.

Lemma placeholders_by_length {A B : Type} (l1 : list A) (l2 : list B) :
  length l1 = length l2 → placeholders l1 = placeholders l2.
Proof.
  unfold placeholders. intros Hlen. f_equal.
  revert l2 Hlen. induction l1 as [|x l1 IH]; intros [|y l2] Hlen; try done.
  simpl. f_equal. apply IH. simpl in Hlen. lia.
Qed.

Lemma and_clause_well_bound clause ps q :
  well_bound q →
  count_char placeholder clause = length ps →
  well_bound (and_clause clause ps q).
Proof.
  unfold well_bound, and_clause. simpl. intros Hq Hc.
  rewrite count_char_app, List.length_app. lia.
Qed.

Lemma when_well_bound (b : bool) clause ps q :
  well_bound q →
  count_char placeholder clause = length ps →
  well_bound (if b then and_clause clause ps q else q).
Proof. destruct b; [apply and_clause_well_bound | done]. Qed.

Lemma searchFlights_query_unfold p :
  searchFlights_query p
  = match airlines p with
    | AirlinesArray l =>
        if bool_decide (0 < length l)%nat
        then inr (and_clause (" AND airline IN (" +:+ placeholders l +:+ ")") (Bound <$> l)
                    (scalar_filters p))
        else inr (scalar_filters p)
    | AirlinesOther (JsStr s) =>
        if truthy (JsStr s)
        then inl "searchParams.airlines.map is not a function"
        else inr (scalar_filters p)
    | AirlinesOther _ => inr (scalar_filters p)
    end.
Proof. reflexivity. Qed.

Lemma searchFlights_query_well_bound p q :
  searchFlights_query p = inr q → well_bound q.
Proof.
  unfold searchFlights_query.
  set (q6 := if String_is_true (directOnly p) then _ else _).
  assert (well_bound q6) as H6.
  { subst q6. repeat (apply when_well_bound; [|reflexivity]). reflexivity. }
  clearbody q6. destruct (airlines p) as [l|v].
  - case_bool_decide; intros [= <-]; [|done].
    apply and_clause_well_bound; [done|].
    rewrite !count_char_app, count_placeholders, length_fmap. simpl. lia.
  - destruct v as [| |b|z|s]; try (intros [= <-]; done).
    destruct (truthy (JsStr s)); [discriminate | intros [= <-]; done].
Qed.

(** X11: what a search reaches the database with.  A request without an
    origin or a destination is answered [400] and nothing is run, and so
    is, with [500], a request whose [airlines] is a non-empty string
    rather than an array.  Every query that is run filters on the origin
    and the destination of the request, first in the text and first among
    the bound values, has as many placeholders as bound values, and asks
    for at most 100 rows. *)
Theorem search_runs_only_route_queries
    (p : FlightSearchRequest) (page_in limit_in : JsNumber) :
  (truthy (origin p) = false ∨ truthy (destination p) = false →
     searchFlights_plan p page_in limit_in
     = Respond (Failure 400 "VALIDATION_ERROR"
                  "Origin and destination are required fields"))
  ∧ (∀ s, truthy (origin p) = true → truthy (destination p) = true →
          airlines p = AirlinesOther (JsStr s) → s ≠ "" →
          searchFlights_plan p page_in limit_in
          = Respond (Failure 500 "INTERNAL_ERROR"
                       "searchParams.airlines.map is not a function"))
  ∧ (∀ q pg, searchFlights_plan p page_in limit_in = RunQuery q pg →
       (∃ more,
          whereClause q
          = "WHERE 1=1 AND origin_airport_code = ? AND destination_airport_code = ?"
            +:+ more)
       ∧ (∃ rest, params q = Bound (origin p) :: Bound (destination p) :: rest)
       ∧ well_bound q
       ∧ page_limit pg ≤ 100).
Proof.
  unfold searchFlights_plan. split; [|split].
  - intros [-> | ->]; [done | now rewrite orb_true_r].
  - intros s Ho Hd Ha Hs. rewrite Ho, Hd. simpl.
    unfold searchFlights_query. rewrite Ha. simpl.
    destruct (String.eqb_spec s ""); [done|]. done.
  - intros q pg. destruct (truthy (origin p)) eqn:Ho; [|discriminate].
    destruct (truthy (destination p)) eqn:Hd; [|discriminate]. simpl.
    destruct (searchFlights_query p) as [msg|q'] eqn:Hq; [discriminate|].
    intros [= <- <-].
    pose proof (searchFlights_query_well_bound p q' Hq) as Hwb.
    split; [|split; [|split]]; try done.
    + unfold searchFlights_query in Hq. rewrite Ho, Hd in Hq.
      destruct (truthy (departureDate p)), (truthy (maxPrice p)), (truthy (class p)),
        (String_is_true (directOnly p));
        (destruct (airlines p) as [l|v];
         [ case_bool_decide; injection Hq as <-; eexists; reflexivity
         | destruct v as [| |b|z|s]; try (injection Hq as <-; eexists; reflexivity);
           destruct (truthy (JsStr s)); [discriminate|];
           injection Hq as <-; eexists; reflexivity ]).
    + unfold searchFlights_query in Hq. rewrite Ho, Hd in Hq.
      destruct (truthy (departureDate p)), (truthy (maxPrice p)), (truthy (class p)),
        (String_is_true (directOnly p));
        (destruct (airlines p) as [l|v];
         [ case_bool_decide; injection Hq as <-; eexists; reflexivity
         | destruct v as [| |b|z|s]; try (injection Hq as <-; eexists; reflexivity);
           destruct (truthy (JsStr s)); [discriminate|];
           injection Hq as <-; eexists; reflexivity ]).
    + unfold pagination. simpl. lia.
Qed.

Lemma search_runs_only_route_queries_witness :
  searchFlights_plan one_way_search JsNaN JsNaN
  = Respond (Failure 400 "VALIDATION_ERROR" "Origin and destination are required fields")
  ∧ well_bound
      (mkQuery
         ("WHERE 1=1 AND origin_airport_code = ? AND destination_airport_code = ?"
          +:+ " AND DATE(departure_time) = ? AND duration_minutes <= 300"
          +:+ " AND airline IN (?,?)")
         [Bound (JsStr "JFK"); Bound (JsStr "LAX"); Bound (JsStr "2025-12-15");
          Bound (JsStr "Delta"); Bound (JsStr "United")]).
Proof.
  destruct (search_runs_only_route_queries one_way_search JsNaN JsNaN) as (Hbad & _ & _).
  destruct (search_runs_only_route_queries jfk_lax_search (JsInt 2) (JsInt 500))
    as (_ & _ & Hrun).
  split.
  - apply Hbad. right. reflexivity.
  - refine (proj1 (proj2 (proj2 (Hrun _ (mkPage 100 (Some 100)) _)))). reflexivity.
Defined.

(** X12: the SQL text of a search does not depend on the values of the
    request, only on which fields are present, on whether [directOnly]
    reads [true], and on how many airlines are listed: two requests of
    the same shape produce the same [WHERE] clause, or fail with the same
    message.  This is about the [WHERE] clause alone: the [LIMIT] and
    [OFFSET] of the statement are numbers written into its text, see
    [pagination]. *)
Theorem search_text_ignores_values (p1 p2 : FlightSearchRequest) :
  request_shape p1 = request_shape p2 →
  query_text (searchFlights_query p1) = query_text (searchFlights_query p2).
Proof.
  unfold request_shape. intros [= Ho Hd Hdate Hprice Hclass Hdirect Hair].
  assert (whereClause (scalar_filters p1) = whereClause (scalar_filters p2)) as Hbase.
  { unfold scalar_filters. rewrite Ho, Hd, Hdate, Hprice, Hclass, Hdirect.
    destruct (truthy (origin p2)), (truthy (destination p2)), (truthy (departureDate p2)),
      (truthy (maxPrice p2)), (truthy (class p2)), (String_is_true (directOnly p2));
      reflexivity. }
  rewrite !searchFlights_query_unfold.
  destruct (airlines p1) as [l1|v1], (airlines p2) as [l2|v2]; simpl in Hair;
    try discriminate.
  - injection Hair as Hlen. rewrite Hlen.
    case_bool_decide; simpl; [|now rewrite Hbase].
    now rewrite Hbase, (placeholders_by_length l1 l2 Hlen).
  - injection Hair as Hv.
    destruct v1 as [| |b1|z1|s1], v2 as [| |b2|z2|s2]; simpl in Hv |- *;
      try (now rewrite Hbase).
    + rewrite <- Hv. simpl. now rewrite Hbase.
    + rewrite <- Hv. simpl. now rewrite Hbase.
    + rewrite <- Hv. simpl. now rewrite Hbase.
    + rewrite <- Hv. simpl. now rewrite Hbase.
    + rewrite Hv. simpl. now rewrite Hbase.
    + rewrite Hv. simpl. now rewrite Hbase.
    + rewrite Hv. simpl. now rewrite Hbase.
    + rewrite Hv. simpl. now rewrite Hbase.
    + rewrite Hv. destruct (negb (String.eqb s2 "")); simpl; [done | now rewrite Hbase].
Qed.

Lemma search_text_ignores_values_witness :
  query_text (searchFlights_query jfk_lax_search)
  = query_text (searchFlights_query hostile_search).
Proof. apply (search_text_ignores_values jfk_lax_search hostile_search). reflexivity. Defined.

(** X13: paging of the search.  The row limit never exceeds 100; a
    missing, non-numeric or zero [limit] means 20 and a missing,
    non-numeric or zero [page] means the first page, at offset 0; a
    negative limit is passed on as it is.  For a positive limit and a
    page number up to [2^46], where the offset is computed exactly, the
    pages are adjacent windows: page [n + 1] starts where page [n] ends,
    and no offset is negative. *)
Theorem pagination_windows (page_in limit_in : JsNumber) :
  page_limit (pagination page_in limit_in) ≤ 100
  ∧ (limit_in = JsNaN ∨ limit_in = JsInt 0 →
     page_limit (pagination page_in limit_in) = 20)
  ∧ (page_in = JsNaN ∨ page_in = JsInt 0 ∨ page_in = JsInt 1 →
     page_offset (pagination page_in limit_in) = Some 0)
  ∧ (∀ l, limit_in = JsInt l → l < 0 → safe_integer l = true →
     page_limit (pagination page_in limit_in) = l)
  ∧ (∀ n, 1 ≤ n ≤ 2 ^ 46 →
       0 < page_limit (pagination (JsInt n) limit_in) →
       ∃ offset,
         page_offset (pagination (JsInt n) limit_in) = Some offset
         ∧ 0 ≤ offset
         ∧ page_offset (pagination (JsInt (n + 1)) limit_in)
           = Some (offset + page_limit (pagination (JsInt n) limit_in))).
Proof.
  unfold pagination. simpl. split; [lia|]. split; [|split; [|split]].
  - intros [-> | ->]; reflexivity.
  - intros [-> | [-> | ->]]; reflexivity.
  - intros l -> Hl _. simpl. destruct (Z.eqb_spec l 0); lia.
  - intros n Hn Hpos.
    destruct (Z.eqb_spec (n + 1) 0); [lia|]. destruct (Z.eqb_spec n 0); [lia|].
    set (limit := number_or limit_in 20 `min` 100) in *.
    assert (limit ≤ 100) by (unfold limit; lia).
    assert (safe_integer n = true) as ->
      by (apply Z.leb_le; unfold MAX_SAFE_INTEGER; lia).
    assert (safe_integer (n + 1) = true) as ->
      by (apply Z.leb_le; unfold MAX_SAFE_INTEGER; lia).
    assert (safe_integer ((n - 1) * limit) = true) as ->
      by (apply Z.leb_le; unfold MAX_SAFE_INTEGER; nia).
    assert (safe_integer ((n + 1 - 1) * limit) = true) as ->
      by (apply Z.leb_le; unfold MAX_SAFE_INTEGER; nia).
    simpl. eexists. split; [done|]. split; [nia|]. f_equal. lia.
Qed.

Lemma pagination_windows_witness :
  page_limit (pagination (JsInt 3) JsNaN) = 20
  ∧ page_offset (pagination (JsInt 3) JsNaN) = Some 40
  ∧ page_offset (pagination (JsInt (3 + 1)) JsNaN) = Some 60
  ∧ page_limit (pagination JsNaN (JsInt (-5))) = -5.
Proof.
  destruct (pagination_windows (JsInt 3) JsNaN) as (_ & Hdef & _ & _ & Hnext).
  destruct (pagination_windows JsNaN (JsInt (-5))) as (_ & _ & _ & Hneg & _).
  destruct (Hnext 3) as (offset & Hoff & _ & Hsucc); [lia | reflexivity |].
  split; [|split; [|split]].
  - apply Hdef. now left.
  - reflexivity.
  - rewrite Hsucc. vm_compute in Hoff. injection Hoff as <-. reflexivity.
  - apply (Hneg (-5)); [reflexivity | lia | reflexivity].
Defined.

(** X14: the query of [getFlightsByRoute] always filters on the origin
    and the destination of the path, which are its first two bound
    values, and has as many placeholders as bound values, whichever of
    [date], [maxPrice] and [class] the query string carries; its text
    depends only on which of the three are present. *)
Theorem route_query_is_well_bound
    (origin destination : string) (date maxPrice flightClass : JsVal) :
  well_bound (getFlightsByRoute_query origin destination date maxPrice flightClass)
  ∧ (∃ more,
       whereClause (getFlightsByRoute_query origin destination date maxPrice flightClass)
       = "WHERE origin_airport_code = ? AND destination_airport_code = ?" +:+ more)
  ∧ (∃ rest,
       params (getFlightsByRoute_query origin destination date maxPrice flightClass)
       = Bound (JsStr origin) :: Bound (JsStr destination) :: rest)
  ∧ (∀ origin' destination' date' maxPrice' flightClass',
       truthy date' = truthy date →
       truthy maxPrice' = truthy maxPrice →
       truthy flightClass' = truthy flightClass →
       whereClause (getFlightsByRoute_query origin' destination' date' maxPrice' flightClass')
       = whereClause (getFlightsByRoute_query origin destination date maxPrice flightClass)).
Proof.
  unfold getFlightsByRoute_query. split; [|split; [|split]].
  - repeat (apply when_well_bound; [|reflexivity]). reflexivity.
  - destruct (truthy date), (truthy maxPrice), (truthy flightClass);
      eexists; reflexivity.
  - destruct (truthy date), (truthy maxPrice), (truthy flightClass);
      eexists; reflexivity.
  - intros origin' destination' date' maxPrice' flightClass' -> -> ->.
    destruct (truthy date), (truthy maxPrice), (truthy flightClass); reflexivity.
Qed.

Lemma route_query_is_well_bound_witness :
  whereClause (getFlightsByRoute_query "x' OR '1'='1" "LAX" (JsStr "?") JsUndefined
                 (JsStr "economy"))
  = whereClause (getFlightsByRoute_query "JFK" "LAX" (JsStr "2025-12-15") JsUndefined
                   (JsStr "first")).
Proof.
  apply (route_query_is_well_bound "JFK" "LAX" (JsStr "2025-12-15") JsUndefined
           (JsStr "first")); reflexivity.
Defined.
